(** * AURA-MF demo backend: the simplified 2D thermal solver

    A shallow embedding of [docs/assets/js/aura_demo_backend.py]: the
    [SimulationParameters] dataclass, the [SimplifiedPhysicsSolver] class with
    its five field models and its time-stepping loop, and the
    [/api/simulate] route with its range checks; and, from
    [backend/app.py], the [SimulationState] the dashboard keeps between
    requests.

    Numbers.  Python floats and NumPy float64 arrays are modelled by the real
    numbers of the Standard Library: [np.exp] is [exp], [np.sqrt] is [sqrt],
    a 2D array is a list of rows.  Rounding, overflow, infinities and NaN are
    outside this model; every statement below is about the arithmetic the
    code writes down, read over the reals.  The one nan the code turns back
    into a number, the convection coefficient of a negative wind speed, is
    modelled by the number the code returns. *)

From Stdlib Require Import Reals Lra Lia String.
From stdpp Require Import base list.

Open Scope R_scope.

(** ** Exceptions *)

Inductive exn : Type :=
| ValueError (msg : string).

Inductive result (A : Type) : Type :=
| Ok (a : A)
| Raise (e : exn).
Arguments Ok {A} a.
Arguments Raise {A} e.

Definition bind {A B : Type} (m : result A) (k : A -> result B) : result B :=
  match m with
  | Ok a => k a
  | Raise e => Raise e
  end.

Definition str (e : exn) : string :=
  match e with ValueError msg => msg end.

(** ** The part of NumPy the solver uses *)

Module np.

Abbreviation array1 := (list R).
Abbreviation array2 := (list (list R)).

(** [np.ones((ny, nx))], [np.zeros((ny, nx))]. *)
Definition ones (ny nx : nat) : array2 := replicate ny (replicate nx 1).
Definition zeros (ny nx : nat) : array2 := replicate ny (replicate nx 0).

(** Element-wise operations: a function of one array, of two arrays. *)
Definition map1 (f : R -> R) (a : array2) : array2 :=
  (fun row : array1 => f <$> row) <$> a.
Definition map2 (f : R -> R -> R) (a b : array2) : array2 :=
  zip_with (zip_with f) a b.

(** [a[i, j]]. *)
Definition get (a : array2) (i j : nat) : option R :=
  match a !! i with
  | Some row => row !! j
  | None => None
  end.

(** [np.linspace(start, stop, num)] with [endpoint=True]:
    [step = (stop - start) / (num - 1)], [y = arange(num) * step + start],
    and the last element is set to [stop]; with [num = 1] there is no step
    and the result is [[start]]. *)
Definition linspace (start stop : R) (num : nat) : array1 :=
  let div := (num - 1)%nat in
  let delta := stop - start in
  let y := INR <$> seq 0 num in
  let y := if (0 <? div)%nat
           then (fun a => a * (delta / INR div)) <$> y
           else (fun a => a * delta) <$> y in
  let y := (fun a => a + start) <$> y in
  if (1 <? num)%nat then <[(num - 1)%nat := stop]> y else y.

(** [X, Y = np.meshgrid(x, y)]: [X[i, j] = x[j]], [Y[i, j] = y[i]]. *)
Definition meshgrid (x y : array1) : array2 * array2 :=
  (replicate (length y) x, (fun yi => replicate (length x) yi) <$> y).

(** [np.clip(a, a_min, a_max)] is [minimum(a_max, maximum(a, a_min))]. *)
Definition clip1 (a_min a_max a : R) : R := Rmin a_max (Rmax a a_min).
Definition clip (a : array2) (a_min a_max : R) : array2 :=
  map1 (clip1 a_min a_max) a.

(** One axis of [np.pad(_, 1, mode='edge')]: the first and the last
    element are duplicated; an empty axis cannot be extended. *)
Definition pad_edge {A : Type} (l : list A) : option (list A) :=
  match head l, last l with
  | Some a, Some z => Some (a :: l ++ [z])
  | _, _ => None
  end.

(** The error of [np.pad]; the message names the first empty axis. *)
Definition pad_error (axis : nat) : exn :=
  match axis with
  | O =>
      ValueError "can't extend empty axis 0 using modes other than 'constant' or 'empty'"
  | S _ =>
      ValueError "can't extend empty axis 1 using modes other than 'constant' or 'empty'"
  end.

(** [np.pad(T, 1, mode='edge')] on a 2D array. *)
Definition pad (T : array2) : result array2 :=
  match mapM pad_edge T with
  | Some rows =>
      match pad_edge rows with
      | Some T_pad => Ok T_pad
      | None => Raise (pad_error 0)
      end
  | None => Raise (pad_error 1)
  end.

(** Slices along one axis: [l[a:]], [l[:-b]] and [l[a:-b]]. *)
Definition from {A : Type} (a : nat) (l : list A) : list A := drop a l.
Definition upto_last {A : Type} (b : nat) (l : list A) : list A :=
  take (length l - b) l.
Definition between {A : Type} (a b : nat) (l : list A) : list A :=
  upto_last b (from a l).

(** [a[rows, cols]] for two slices. *)
Definition slice2 (rows : list (list R) -> list (list R))
    (cols : list R -> list R) (a : array2) : array2 :=
  cols <$> rows a.

(** Reductions over all elements. *)
Definition flat (a : array2) : list R := concat a.
Definition sum (a : array2) : R := foldr Rplus 0 (flat a).
Definition size (a : array2) : nat := length (flat a).
Definition mean (a : array2) : R := sum a / INR (size a).

(** The error of a reduction without identity on an empty array; the
    message names the reduction. *)
Definition maximum_error : exn :=
  ValueError "zero-size array to reduction operation maximum which has no identity".
Definition minimum_error : exn :=
  ValueError "zero-size array to reduction operation minimum which has no identity".

Definition max (a : array2) : result R :=
  match flat a with
  | [] => Raise maximum_error
  | v :: vs => Ok (foldl Rmax v vs)
  end.
Definition min (a : array2) : result R :=
  match flat a with
  | [] => Raise minimum_error
  | v :: vs => Ok (foldl Rmin v vs)
  end.

End np.

(** ** [SimulationParameters] *)

(** The dataclass.  Its constructor stores what it is given: it has no
    [__post_init__] and checks no range. *)
Record SimulationParameters : Type := {
  nx : nat;
  ny : nat;
  solar_irradiance : R;
  ambient_temperature : R;
  wind_speed : R;
  cell_efficiency : R;
  thermal_conductivity : R;
  absorptivity : R;
  emissivity : R;
  dt : R;
  n_steps : nat
}.

(** [SimulationParameters()]: every field at its default. *)
Definition default_parameters : SimulationParameters := {|
  nx := 25;
  ny := 25;
  solar_irradiance := 1000.0;
  ambient_temperature := 300.0;
  wind_speed := 1.0;
  cell_efficiency := 0.20;
  thermal_conductivity := 130.0;
  absorptivity := 0.95;
  emissivity := 0.90;
  dt := 0.1;
  n_steps := 100
|}.

(** ** [SimplifiedPhysicsSolver] *)

Definition STEFAN_BOLTZMANN : R := 5.67e-8.
Definition KELVIN_OFFSET : R := 273.15.

(** Cell geometry, assigned once in [__init__] and never changed. *)
Definition cell_area : R := 0.01.
Definition dx : R := 0.1.
Definition dy : R := 0.1.

Record SimplifiedPhysicsSolver : Type := {
  params : SimulationParameters;
  temperature : np.array2;
  power_generation : np.array2
}.

(** [__init__]. *)
Definition init (p : SimulationParameters) : SimplifiedPhysicsSolver := {|
  params := p;
  temperature :=
    np.map1 (fun one => one * ambient_temperature p) (np.ones (ny p) (nx p));
  power_generation := np.zeros (ny p) (nx p)
|}.

(** The edge factor at one position of the mesh. *)
Definition edge_factor (X Y : R) : R :=
  1.0 - 0.1 * (exp (-10 * X) + exp (-10 * (1 - X)) +
               exp (-10 * Y) + exp (-10 * (1 - Y))).

Definition compute_solar_absorption (self : SimplifiedPhysicsSolver) : np.array2 :=
  let Q_solar := solar_irradiance (params self) *
                 absorptivity (params self) *
                 cell_area in
  let x := np.linspace 0 1 (nx (params self)) in
  let y := np.linspace 0 1 (ny (params self)) in
  let '(X, Y) := np.meshgrid x y in
  np.map1 (fun e => Q_solar * e) (np.map2 edge_factor X Y).

(** The temperature-dependent efficiency of one cell, after the clip. *)
Definition eta_T (self : SimplifiedPhysicsSolver) (T : R) : R :=
  let T_ref := 298.15 in
  let beta := 0.004 in
  np.clip1 0.05 0.30 (cell_efficiency (params self) * (1.0 - beta * (T - T_ref))).

Definition compute_electrical_generation (self : SimplifiedPhysicsSolver)
    (T : np.array2) : np.array2 :=
  let Q_solar := compute_solar_absorption self in
  np.map2 Rmult (np.map1 (eta_T self) T) Q_solar.

(** The convection coefficient; Python's [max(5.0, h_conv)].  For a
    negative wind speed [np.sqrt] gives nan, so [h_conv] is nan, and
    [max(5.0, nan)] returns its first argument, 5.0. *)
Definition h_conv (self : SimplifiedPhysicsSolver) : R :=
  let v := wind_speed (params self) in
  if Rle_dec 0 v
  then
    let h_conv := 10.45 - v + 10.0 * sqrt v in
    Rmax 5.0 h_conv
  else 5.0.

Definition compute_convective_cooling (self : SimplifiedPhysicsSolver)
    (T : np.array2) : np.array2 :=
  np.map1 (fun t => h_conv self * cell_area *
                    (t - ambient_temperature (params self))) T.

Definition compute_radiative_cooling (self : SimplifiedPhysicsSolver)
    (T : np.array2) : np.array2 :=
  let T_sky := ambient_temperature (params self) - 10.0 in
  np.map1 (fun t => emissivity (params self) * STEFAN_BOLTZMANN *
                    cell_area * (t ^ 4 - T_sky ^ 4)) T.

Definition compute_conduction (self : SimplifiedPhysicsSolver)
    (T : np.array2) : result np.array2 :=
  let k := thermal_conductivity (params self) in
  let rho := 2330.0 in
  let c_p := 700.0 in
  let alpha := k / (rho * c_p) in
  bind (np.pad T) (fun T_pad =>
  let centre := np.slice2 (np.between 1 1) (np.between 1 1) T_pad in
  let d2T_dx2 :=
    np.map1 (fun d => d / dx ^ 2)
      (np.map2 Rplus
         (np.map2 Rminus (np.slice2 (np.between 1 1) (np.from 2) T_pad)
                         (np.map1 (Rmult 2) centre))
         (np.slice2 (np.between 1 1) (np.upto_last 2) T_pad)) in
  let d2T_dy2 :=
    np.map1 (fun d => d / dy ^ 2)
      (np.map2 Rplus
         (np.map2 Rminus (np.slice2 (np.from 2) (np.between 1 1) T_pad)
                         (np.map1 (Rmult 2) centre))
         (np.slice2 (np.upto_last 2) (np.between 1 1) T_pad)) in
  let laplacian := np.map2 Rplus d2T_dx2 d2T_dy2 in
  Ok (np.map1 (fun l => alpha * l * rho * c_p * cell_area * dx) laplacian)).

(** The net heat flux of one step, from the four fluxes. *)
Definition Q_net (self : SimplifiedPhysicsSolver)
    (Q_solar Q_conv Q_rad Q_cond : np.array2) : np.array2 :=
  np.map2 Rplus
    (np.map2 Rminus
       (np.map2 Rminus
          (np.map1 (Rmult (1.0 - cell_efficiency (params self))) Q_solar)
          Q_conv)
       Q_rad)
    Q_cond.

(** The state of the loop of [run_simulation]: the solver object and the two
    local history lists. *)
Record LoopState : Type := {
  solver : SimplifiedPhysicsSolver;
  T_history : list np.array2;
  P_history : list np.array2
}.

(** The body of [for step in range(self.params.n_steps)]. *)
Definition time_step (st : LoopState) (step : nat) : result LoopState :=
  let self := solver st in
  let Q_solar := compute_solar_absorption self in
  let P_elec := compute_electrical_generation self (temperature self) in
  let self1 := {| params := params self;
                  temperature := temperature self;
                  power_generation := P_elec |} in
  let Q_conv := compute_convective_cooling self1 (temperature self1) in
  let Q_rad := compute_radiative_cooling self1 (temperature self1) in
  bind (compute_conduction self1 (temperature self1)) (fun Q_cond =>
  let Q_net := Q_net self1 Q_solar Q_conv Q_rad Q_cond in
  let mass := 2330.0 * cell_area * 0.002 in
  let c_p := 700.0 in
  let dT := np.map1 (fun q => q * dt (params self1) / (mass * c_p)) Q_net in
  let self2 := {| params := params self1;
                  temperature :=
                    np.clip (np.map2 Rplus (temperature self1) dT) 200.0 450.0;
                  power_generation := power_generation self1 |} in
  Ok (if (step mod 10 =? 0)%nat
      then {| solver := self2;
              T_history := T_history st ++ [temperature self2];
              P_history := P_history st ++ [power_generation self2] |}
      else {| solver := self2;
              T_history := T_history st;
              P_history := P_history st |})).

(** The loop over a list of step numbers. *)
Fixpoint time_integration (steps : list nat) (st : LoopState) : result LoopState :=
  match steps with
  | [] => Ok st
  | step :: rest => bind (time_step st step) (time_integration rest)
  end.

(** The dictionary [run_simulation] returns. *)
Record Results : Type := {
  temperature_field : np.array2;
  power_field : np.array2;
  temperature_mean : R;
  temperature_max : R;
  temperature_min : R;
  power_total : R;
  power_mean : R;
  efficiency_avg : R;
  runtime_ms : R
}.

(** The world outside the computation: the wall clock read by
    [datetime.now()] and the records written by [logger]. *)
Inductive LogRecord : Type :=
| InfoStarting (p : SimulationParameters)
| InfoComplete (runtime : R)
| ErrorSimulation (msg : string).

Record World : Type := {
  clock : nat -> R;
  reads : nat;
  log : list LogRecord
}.

Definition now (w : World) : R * World :=
  (clock w (reads w),
   {| clock := clock w; reads := S (reads w); log := log w |}).

Definition emit (r : LogRecord) (w : World) : World :=
  {| clock := clock w; reads := reads w; log := log w ++ [r] |}.

Definition run_simulation (self : SimplifiedPhysicsSolver) (w : World)
    : result Results * World :=
  let w := emit (InfoStarting (params self)) w in
  let '(start_time, w) := now w in
  match time_integration (seq 0 (n_steps (params self)))
          {| solver := self; T_history := []; P_history := [] |} with
  | Raise e => (Raise e, w)
  | Ok st =>
      let self := solver st in
      match np.max (temperature self), np.min (temperature self) with
      | Ok T_max, Ok T_min =>
          let '(end_time, w) := now w in
          let results := {|
            temperature_field := temperature self;
            power_field := power_generation self;
            temperature_mean := np.mean (temperature self);
            temperature_max := T_max;
            temperature_min := T_min;
            power_total := np.sum (power_generation self);
            power_mean := np.mean (power_generation self);
            efficiency_avg :=
              np.mean (np.map2 Rdiv (power_generation self)
                         (np.map1 (fun q => q + 1e-10)
                            (compute_solar_absorption self)));
            runtime_ms := (end_time - start_time) * 1000
          |} in
          (Ok results, emit (InfoComplete (runtime_ms results)) w)
      | Raise e, _ => (Raise e, w)
      | _, Raise e => (Raise e, w)
      end
  end.

(** ** The route [/api/simulate] *)

#[global] Instance Rle_decision (x y : R) : Decision (x <= y) := Rle_dec x y.

(** The JSON body of the request: each key may be absent. *)
Record Request : Type := {
  json_solar_irradiance : option R;
  json_ambient_temperature : option R;
  json_wind_speed : option R;
  json_cell_efficiency : option R;
  json_thermal_conductivity : option R;
  json_absorptivity : option R;
  json_emissivity : option R
}.

(** [data.get(key, default)]. *)
Definition get (value : option R) (default : R) : R :=
  match value with
  | Some v => v
  | None => default
  end.

(** The response: an error body with its status code, or the body of a
    successful run (status 200).  The picture that [create_visualization]
    renders from the two fields is left out. *)
Inductive Response : Type :=
| Error (status : nat) (error : string)
| Success (results : Results) (parameters : SimulationParameters).

(** [params = SimulationParameters(solar_irradiance=float(data.get(...)), ...)]:
    the seven physical fields from the request, the grid and the time
    parameters at their defaults. *)
Definition request_parameters (data : Request) : SimulationParameters := {|
  nx := nx default_parameters;
  ny := ny default_parameters;
  solar_irradiance := get (json_solar_irradiance data) 1000.0;
  ambient_temperature := get (json_ambient_temperature data) 300.0;
  wind_speed := get (json_wind_speed data) 1.0;
  cell_efficiency := get (json_cell_efficiency data) 0.20;
  thermal_conductivity := get (json_thermal_conductivity data) 130.0;
  absorptivity := get (json_absorptivity data) 0.95;
  emissivity := get (json_emissivity data) 0.90;
  dt := dt default_parameters;
  n_steps := n_steps default_parameters
|}.

Definition api_simulate (data : Request) (w : World) : Response * World :=
  let params := request_parameters data in
  if negb (bool_decide (800 <= solar_irradiance params /\
                        solar_irradiance params <= 1200)) then
    (Error 400 "Solar irradiance out of range [800-1200]", w)
  else if negb (bool_decide (280 <= ambient_temperature params /\
                             ambient_temperature params <= 330)) then
    (Error 400 "Ambient temperature out of range [280-330]", w)
  else if negb (bool_decide (0 <= wind_speed params /\
                             wind_speed params <= 10)) then
    (Error 400 "Wind speed out of range [0-10]", w)
  else if negb (bool_decide (0.10 <= cell_efficiency params /\
                             cell_efficiency params <= 0.30)) then
    (Error 400 "Cell efficiency out of range [0.10-0.30]", w)
  else
    let solver := init params in
    match run_simulation solver w with
    | (Ok results, w) => (Success results params, w)
    | (Raise e, w) => (Error 500 (str e), emit (ErrorSimulation (str e)) w)
    end.

(** ** Predicates used by the statements *)

(** The four range checks of the route, as a property of a parameter
    object. *)
Definition validated (p : SimulationParameters) : Prop :=
  (800 <= solar_irradiance p /\ solar_irradiance p <= 1200) /\
  (280 <= ambient_temperature p /\ ambient_temperature p <= 330) /\
  (0 <= wind_speed p /\ wind_speed p <= 10) /\
  (0.10 <= cell_efficiency p /\ cell_efficiency p <= 0.30).

(** The grid has at least one cell. *)
Definition nonempty_grid (p : SimulationParameters) : Prop :=
  (0 < nx p)%nat /\ (0 < ny p)%nat.

(** An array of [rows] rows of [cols] elements each. *)
Definition shape (rows cols : nat) (a : np.array2) : Prop :=
  length a = rows /\ Forall (fun row => length row = cols) a.

(** Every element of the array satisfies [P]. *)
Definition all_cells (P : R -> Prop) (a : np.array2) : Prop :=
  Forall (Forall P) a.

(** The state in which the loop of [run_simulation] starts. *)
Definition start (p : SimulationParameters) : LoopState :=
  {| solver := init p; T_history := []; P_history := [] |}.

(** The base absorbed power [Q_solar] of [compute_solar_absorption], before
    the edge factor. *)
Definition base_absorption (p : SimulationParameters) : R :=
  solar_irradiance p * absorptivity p * cell_area.

(** The solver of a loop state works on parameters [p] and both its grids
    have the shape [p] asks for. *)
Definition shaped (p : SimulationParameters) (st : LoopState) : Prop :=
  params (solver st) = p /\
  shape (ny p) (nx p) (temperature (solver st)) /\
  shape (ny p) (nx p) (power_generation (solver st)).

Definition safe (t : R) : Prop := 200 <= t <= 450.

Definition before (k : nat) : option nat :=
  match k with
  | O => None
  | S k' => Some k'
  end.

Definition neighbour (T : np.array2) (i j : option nat) (t : R) : R :=
  match i, j with
  | Some i, Some j => default t (np.get T i j)
  | _, _ => t
  end.

Definition laplacian_5pt (T : np.array2) (i j : nat) (t : R) : R :=
  (neighbour T (Some i) (Some (S j)) t - 2 * t + neighbour T (Some i) (before j) t) / dx ^ 2 +
  (neighbour T (Some (S i)) (Some j) t - 2 * t + neighbour T (before i) (Some j) t) / dy ^ 2.

(** The power one cell generates in a step: a clipped efficiency times the
    base absorption times an edge factor. *)
Definition generated (p : SimulationParameters) (v : R) : Prop :=
  exists eta e, 0.05 <= eta <= 0.30 /\ 0.6 <= e < 1 /\
                v = eta * (base_absorption p * e).

(** ** Inputs used as examples *)

(** A world in which the clock stands still and nothing was logged. *)
Definition idle_world : World := {| clock := fun _ => 0; reads := 0; log := [] |}.

(** The default parameters with one field replaced. *)
Definition with_wind_speed (v : R) (p : SimulationParameters) : SimulationParameters := {|
  nx := nx p; ny := ny p;
  solar_irradiance := solar_irradiance p;
  ambient_temperature := ambient_temperature p;
  wind_speed := v;
  cell_efficiency := cell_efficiency p;
  thermal_conductivity := thermal_conductivity p;
  absorptivity := absorptivity p;
  emissivity := emissivity p;
  dt := dt p;
  n_steps := n_steps p |}.

Definition with_irradiance (v : R) (p : SimulationParameters) : SimulationParameters := {|
  nx := nx p; ny := ny p;
  solar_irradiance := v;
  ambient_temperature := ambient_temperature p;
  wind_speed := wind_speed p;
  cell_efficiency := cell_efficiency p;
  thermal_conductivity := thermal_conductivity p;
  absorptivity := absorptivity p;
  emissivity := emissivity p;
  dt := dt p;
  n_steps := n_steps p |}.

Definition zero_step_parameters : SimulationParameters := {|
  nx := nx default_parameters; ny := ny default_parameters;
  solar_irradiance := solar_irradiance default_parameters;
  ambient_temperature := ambient_temperature default_parameters;
  wind_speed := wind_speed default_parameters;
  cell_efficiency := cell_efficiency default_parameters;
  thermal_conductivity := thermal_conductivity default_parameters;
  absorptivity := absorptivity default_parameters;
  emissivity := emissivity default_parameters;
  dt := dt default_parameters;
  n_steps := 0 |}.

(** A request body with no key, and a request body with its irradiance
    replaced. *)
Definition empty_request : Request := {|
  json_solar_irradiance := None;
  json_ambient_temperature := None;
  json_wind_speed := None;
  json_cell_efficiency := None;
  json_thermal_conductivity := None;
  json_absorptivity := None;
  json_emissivity := None |}.

Definition with_solar_irradiance (v : R) (data : Request) : Request := {|
  json_solar_irradiance := Some v;
  json_ambient_temperature := json_ambient_temperature data;
  json_wind_speed := json_wind_speed data;
  json_cell_efficiency := json_cell_efficiency data;
  json_thermal_conductivity := json_thermal_conductivity data;
  json_absorptivity := json_absorptivity data;
  json_emissivity := json_emissivity data |}.

Definition with_absorptivity (v : R) (data : Request) : Request := {|
  json_solar_irradiance := json_solar_irradiance data;
  json_ambient_temperature := json_ambient_temperature data;
  json_wind_speed := json_wind_speed data;
  json_cell_efficiency := json_cell_efficiency data;
  json_thermal_conductivity := json_thermal_conductivity data;
  json_absorptivity := Some v;
  json_emissivity := json_emissivity data |}.

(** The three range checks of the route that follow the one on the
    irradiance. *)
Definition later_checks_pass (p : SimulationParameters) : Prop :=
  (280 <= ambient_temperature p /\ ambient_temperature p <= 330) /\
  (0 <= wind_speed p /\ wind_speed p <= 10) /\
  (0.10 <= cell_efficiency p /\ cell_efficiency p <= 0.30).

(** ** Sums over lists *)


(** The default parameters on another grid. *)
Definition with_grid (nx' ny' : nat) (p : SimulationParameters) : SimulationParameters := {|
  nx := nx'; ny := ny';
  solar_irradiance := solar_irradiance p;
  ambient_temperature := ambient_temperature p;
  wind_speed := wind_speed p;
  cell_efficiency := cell_efficiency p;
  thermal_conductivity := thermal_conductivity p;
  absorptivity := absorptivity p;
  emissivity := emissivity p;
  dt := dt p;
  n_steps := n_steps p |}.

(** ** The dashboard backend: [SimulationState]

    From [backend/app.py]: the state the dashboard keeps between requests.
    [time.time()] is an argument; numbers are real numbers as above. *)

#[global] Instance Rlt_decision (x y : R) : Decision (x < y) := Rlt_dec x y.

Module dashboard.

Record SimulationState : Type := {
  time : R;
  fidelity_history : list nat;
  temperature_base : R;
  last_update : R
}.

(** [SimulationState()], constructed when [time.time()] reads [now]. *)
Definition init (now : R) : SimulationState := {|
  time := 0;
  fidelity_history := [];
  temperature_base := 45.0;
  last_update := now
|}.

(** [x % 10] on Python floats, read over the reals: the remainder has the
    sign of the divisor. *)
Definition mod10 (x : R) : R := x - 10 * IZR (Int_part (x / 10)).

(** [update], when [time.time()] reads [current_time]: the fidelity it
    returns and the state it leaves. *)
Definition update (self : SimulationState) (current_time : R)
    : nat * SimulationState :=
  let dt := current_time - last_update self in
  let time' := time self + dt in
  let new_fidelity :=
    if bool_decide (mod10 time' < 3) then 2%nat
    else if bool_decide (mod10 time' < 7) then 1%nat
    else 0%nat in
  let history := fidelity_history self ++ [new_fidelity] in
  let history :=
    if (100 <? length history)%nat
    then drop (length history - 100) history
    else history in
  (new_fidelity,
   {| time := time';
      fidelity_history := history;
      temperature_base := temperature_base self;
      last_update := current_time |}).

(** The state after a sequence of calls of [update]. *)
Definition updates (self : SimulationState) (readings : list R) : SimulationState :=
  foldl (fun s t => (update s t).2) self readings.

End dashboard.

(** * Properties *)

(** ** Cells and shapes *)

Section cells.
Context (P Q S : R -> Prop).

Lemma all_cells_map1 (f : R -> R) (a : np.array2) :
  (forall v, P v -> Q (f v)) -> all_cells P a -> all_cells Q (np.map1 f a).
Proof.
  intros Hf Ha. unfold all_cells, np.map1 in *.
  apply Forall_fmap. eapply Forall_impl; [exact Ha|].
  intros row Hrow. simpl. apply Forall_fmap.
  eapply Forall_impl; [exact Hrow|]. intros v Hv. simpl. auto.
Qed.

Lemma Forall_zip_with_both (f : R -> R -> R) (l k : list R) :
  (forall u v, P u -> Q v -> S (f u v)) ->
  Forall P l -> Forall Q k -> Forall S (zip_with f l k).
Proof.
  intros Hf Hl. revert k. induction Hl as [|u l Hu Hl IH]; intros k Hk.
  - constructor.
  - destruct Hk as [|v k Hv Hk]; simpl; constructor; auto.
Qed.

Lemma all_cells_map2 (f : R -> R -> R) (a b : np.array2) :
  (forall u v, P u -> Q v -> S (f u v)) ->
  all_cells P a -> all_cells Q b -> all_cells S (np.map2 f a b).
Proof.
  intros Hf Ha. revert b. unfold all_cells, np.map2 in *.
  induction Ha as [|r a Hr Ha IH]; intros b Hb.
  - constructor.
  - destruct Hb as [|s b Hs Hb]; simpl; constructor; auto.
    eapply Forall_zip_with_both; eauto.
Qed.
End cells.

Lemma all_cells_True (a : np.array2) : all_cells (fun _ => True) a.
Proof. apply Forall_forall. intros; apply Forall_forall; auto. Qed.

Lemma clip1_bounds (lo hi v : R) : lo <= hi -> lo <= np.clip1 lo hi v <= hi.
Proof.
  intros H. unfold np.clip1. split.
  - apply Rmin_glb; [lra | apply Rmax_r].
  - apply Rmin_l.
Qed.

Lemma all_cells_clip (lo hi : R) (a : np.array2) :
  lo <= hi -> all_cells (fun v => lo <= v <= hi) (np.clip a lo hi).
Proof.
  intros H. unfold np.clip.
  apply (all_cells_map1 (fun _ => True)); [|apply all_cells_True].
  intros v _. by apply clip1_bounds.
Qed.

Lemma all_cells_replicate (P : R -> Prop) (m n : nat) (v : R) :
  P v -> all_cells P (replicate m (replicate n v)).
Proof. intros H. apply Forall_replicate, Forall_replicate, H. Qed.

(** shapes *)
Lemma shape_replicate (m n : nat) (v : R) : shape m n (replicate m (replicate n v)).
Proof.
  split; [apply length_replicate|].
  apply Forall_replicate, length_replicate.
Qed.

Lemma shape_map1 (m n : nat) (f : R -> R) (a : np.array2) :
  shape m n a -> shape m n (np.map1 f a).
Proof.
  intros [Hl Hr]. split; unfold np.map1.
  - by rewrite length_fmap.
  - apply Forall_fmap. eapply Forall_impl; [exact Hr|].
    intros row Hrow. simpl. by rewrite length_fmap.
Qed.

Lemma shape_map2 (m n : nat) (f : R -> R -> R) (a b : np.array2) :
  shape m n a -> shape m n b -> shape m n (np.map2 f a b).
Proof.
  intros [Hla Hra] [Hlb Hrb]. split; unfold np.map2.
  - rewrite length_zip_with. lia.
  - clear Hla Hlb. revert b Hrb.
    induction Hra as [|r a Hr Ha IH]; intros b Hb; [constructor|].
    destruct Hb as [|s b Hs Hb]; simpl; constructor; auto.
    rewrite length_zip_with. lia.
Qed.

Lemma get_map1 (f : R -> R) (a : np.array2) (i j : nat) :
  np.get (np.map1 f a) i j = f <$> np.get a i j.
Proof.
  unfold np.get, np.map1. rewrite list_lookup_fmap.
  destruct (a !! i) as [row|]; simpl; [|done].
  by rewrite list_lookup_fmap.
Qed.

Lemma get_map2 (f : R -> R -> R) (a b : np.array2) (i j : nat) (u v : R) :
  np.get a i j = Some u -> np.get b i j = Some v ->
  np.get (np.map2 f a b) i j = Some (f u v).
Proof.
  unfold np.get, np.map2. intros Ha Hb.
  destruct (a !! i) as [ra|] eqn:Ea; [|done].
  destruct (b !! i) as [rb|] eqn:Eb; [|done].
  rewrite lookup_zip_with, Ea, Eb. simpl.
  by rewrite lookup_zip_with, Ha, Hb.
Qed.

Lemma get_shape (m n : nat) (a : np.array2) (i j : nat) :
  shape m n a -> (i < m)%nat -> (j < n)%nat -> exists v, np.get a i j = Some v.
Proof.
  intros [Hl Hr] Hi Hj. unfold np.get.
  destruct (lookup_lt_is_Some_2 a i) as [row Hrow]; [lia|].
  rewrite Hrow.
  assert (length row = n) as Hn.
  { rewrite Forall_forall in Hr. apply Hr. eapply list_elem_of_lookup_2; eauto. }
  destruct (lookup_lt_is_Some_2 row j) as [v Hv]; [lia|]. eauto.
Qed.

(** ** Edge padding *)

Section pad_edge.
Context {A : Type}.
Implicit Types l k : list A.

Lemma pad_edge_is_Some l :
  (0 < length l)%nat -> exists a z, l !! 0%nat = Some a /\ l !! (length l - 1)%nat = Some z /\
                       np.pad_edge l = Some (a :: l ++ [z]).
Proof.
  intros Hl. unfold np.pad_edge.
  destruct l as [|a l]; [simpl in Hl; lia|]. simpl head.
  destruct (last (a :: l)) as [z|] eqn:Hz.
  - exists a, z. split; [done|]. split; [|done].
    rewrite last_lookup in Hz. simpl in *. by rewrite Nat.sub_0_r.
  - apply last_None in Hz. discriminate.
Qed.

Lemma pad_edge_None l : np.pad_edge l = None -> l = [].
Proof.
  destruct l as [|a l]; [done|]. intros H.
  destruct (pad_edge_is_Some (a :: l)) as (? & ? & _ & _ & E); [simpl; lia|].
  congruence.
Qed.

Lemma pad_edge_inv l k :
  np.pad_edge l = Some k ->
  exists a z, l !! 0%nat = Some a /\ l !! (length l - 1)%nat = Some z /\ k = a :: l ++ [z].
Proof.
  intros H. destruct l as [|a0 l0] eqn:E; [done|].
  destruct (pad_edge_is_Some (a0 :: l0)) as (a & z & Ha & Hz & Hp); [simpl; lia|].
  exists a, z. rewrite Hp in H. by inversion H.
Qed.

Lemma between_pad_edge l k : np.pad_edge l = Some k -> np.between 1 1 k = l.
Proof.
  intros H. apply pad_edge_inv in H as (a & z & _ & _ & ->).
  unfold np.between, np.upto_last, np.from. simpl drop. rewrite drop_0.
  rewrite length_app. simpl. replace (length l + 1 - 1)%nat with (length l) by lia.
  by rewrite take_app_length.
Qed.

Lemma length_from_pad_edge l k :
  np.pad_edge l = Some k -> length (np.from 2 k) = length l.
Proof.
  intros H. apply pad_edge_inv in H as (a & z & Ha & _ & ->).
  apply lookup_lt_Some in Ha.
  unfold np.from. rewrite length_drop. simpl. rewrite length_app. simpl. lia.
Qed.

Lemma length_upto_last_pad_edge l k :
  np.pad_edge l = Some k -> length (np.upto_last 2 k) = length l.
Proof.
  intros H. apply pad_edge_inv in H as (a & z & Ha & _ & ->).
  unfold np.upto_last. rewrite length_take. simpl. rewrite length_app. simpl. lia.
Qed.

(** [k[2:]] holds the neighbour after each element, the last one being its
    own neighbour. *)
Lemma lookup_from_pad_edge l k j :
  np.pad_edge l = Some k -> (j < length l)%nat ->
  np.from 2 k !! j = l !! (S j `min` (length l - 1))%nat.
Proof.
  intros H Hj. apply pad_edge_inv in H as (a & z & Ha & Hz & ->).
  unfold np.from. rewrite lookup_drop.
  destruct (decide (S j < length l)%nat) as [Hlt|Hge].
  - rewrite Nat.min_l by lia. simpl. by rewrite lookup_app_l by lia.
  - rewrite Nat.min_r by lia. simpl. rewrite lookup_app_r by lia.
    replace (S j - length l)%nat with 0%nat by lia. by rewrite Hz.
Qed.

(** [k[:-2]] holds the neighbour before each element, the first one being
    its own neighbour. *)
Lemma lookup_upto_last_pad_edge l k j :
  np.pad_edge l = Some k -> (j < length l)%nat ->
  np.upto_last 2 k !! j = l !! (pred j).
Proof.
  intros H Hj. apply pad_edge_inv in H as (a & z & Ha & Hz & ->).
  unfold np.upto_last. rewrite lookup_take_lt.
  2:{ simpl. rewrite length_app. simpl. lia. }
  destruct j as [|j]; simpl; [by rewrite Ha|].
  by rewrite lookup_app_l by lia.
Qed.
End pad_edge.

(** The outcome of [np.pad] on a non-empty array. *)
Lemma pad_Ok (m n : nat) (T : np.array2) :
  shape m n T -> (0 < m)%nat -> (0 < n)%nat ->
  exists rows T_pad,
    mapM np.pad_edge T = Some rows /\ np.pad_edge rows = Some T_pad /\
    np.pad T = Ok T_pad /\ length rows = m.
Proof.
  intros [Hl Hr] Hm Hn.
  assert (exists rows, mapM np.pad_edge T = Some rows) as [rows Hrows].
  { destruct (mapM np.pad_edge T) as [rows|] eqn:E; [eauto|].
    apply mapM_None_1 in E. apply Exists_exists in E as (r & Hin & Hnone).
    apply pad_edge_None in Hnone. rewrite Forall_forall in Hr.
    specialize (Hr r Hin). subst r. simpl in Hr. lia. }
  assert (length rows = m) as Hlen.
  { apply length_mapM in Hrows. lia. }
  destruct (pad_edge_is_Some rows) as (a & z & _ & _ & Hp); [lia|].
  exists rows, (a :: rows ++ [z]). unfold np.pad. rewrite Hrows, Hp. auto.
Qed.

Lemma mapM_pad_edge_centre (T rows : np.array2) :
  mapM np.pad_edge T = Some rows -> np.between 1 1 <$> rows = T.
Proof.
  intros H. apply mapM_Some_1 in H.
  induction H as [|r r' T rows Hr _ IH]; [done|].
  rewrite fmap_cons, IH. f_equal. by apply between_pad_edge.
Qed.

Lemma mapM_pad_edge_lookup (T rows : np.array2) (i : nat) (r : list R) :
  mapM np.pad_edge T = Some rows -> T !! i = Some r ->
  exists r', rows !! i = Some r' /\ np.pad_edge r = Some r'.
Proof.
  intros H Hi. apply mapM_Some_1 in H.
  destruct (Forall2_lookup_l _ _ _ _ _ H Hi) as (r' & Hr' & Hp). eauto.
Qed.

(** ** Slices of the padded array *)

Lemma shape_row (m n : nat) (a : np.array2) (i : nat) (r : list R) :
  shape m n a -> a !! i = Some r -> length r = n.
Proof.
  intros [_ Hr] Hi. rewrite Forall_forall in Hr.
  apply Hr. eapply list_elem_of_lookup_2; eauto.
Qed.

Lemma get_row (a : np.array2) (i j : nat) (r : list R) :
  a !! i = Some r -> np.get a i j = r !! j.
Proof. intros H. unfold np.get. by rewrite H. Qed.

Lemma get_Some_lt (m n : nat) (a : np.array2) (i j : nat) (v : R) :
  shape m n a -> np.get a i j = Some v -> (i < m)%nat /\ (j < n)%nat.
Proof.
  intros Hs Hg. unfold np.get in Hg.
  destruct (a !! i) as [r|] eqn:Hi; [|done].
  pose proof (shape_row _ _ _ _ _ Hs Hi) as Hn.
  apply lookup_lt_Some in Hi. apply lookup_lt_Some in Hg.
  destruct Hs as [Hl _]. lia.
Qed.

Section padded.
Context (m n : nat) (T rows T_pad : np.array2).
Context (HT : shape m n T).
Context (Hrows : mapM np.pad_edge T = Some rows).
Context (Hpad : np.pad_edge rows = Some T_pad).

Lemma length_rows : length rows = m.
Proof. apply length_mapM in Hrows. destruct HT. lia. Qed.

Lemma slice_centre :
  np.slice2 (np.between 1 1) (np.between 1 1) T_pad = T.
Proof.
  unfold np.slice2. rewrite (between_pad_edge _ _ Hpad).
  by apply mapM_pad_edge_centre.
Qed.

Lemma get_slice_right (i j : nat) :
  (i < m)%nat -> (j < n)%nat ->
  np.get (np.slice2 (np.between 1 1) (np.from 2) T_pad) i j =
  np.get T i (S j `min` (n - 1))%nat.
Proof.
  intros Hi Hj. unfold np.slice2. rewrite (between_pad_edge _ _ Hpad).
  destruct (lookup_lt_is_Some_2 T i) as [r Hr]; [destruct HT; lia|].
  destruct (mapM_pad_edge_lookup _ _ _ _ Hrows Hr) as (r' & Hr' & Hp).
  pose proof (shape_row _ _ _ _ _ HT Hr) as Hn.
  rewrite (get_row T i _ r Hr).
  rewrite (get_row _ i j (np.from 2 r')) by (by rewrite list_lookup_fmap, Hr').
  rewrite (lookup_from_pad_edge _ _ _ Hp) by lia. by rewrite Hn.
Qed.

Lemma get_slice_left (i j : nat) :
  (i < m)%nat -> (j < n)%nat ->
  np.get (np.slice2 (np.between 1 1) (np.upto_last 2) T_pad) i j =
  np.get T i (pred j).
Proof.
  intros Hi Hj. unfold np.slice2. rewrite (between_pad_edge _ _ Hpad).
  destruct (lookup_lt_is_Some_2 T i) as [r Hr]; [destruct HT; lia|].
  destruct (mapM_pad_edge_lookup _ _ _ _ Hrows Hr) as (r' & Hr' & Hp).
  pose proof (shape_row _ _ _ _ _ HT Hr) as Hn.
  rewrite (get_row T i _ r Hr).
  rewrite (get_row _ i j (np.upto_last 2 r')) by (by rewrite list_lookup_fmap, Hr').
  by rewrite (lookup_upto_last_pad_edge _ _ _ Hp) by lia.
Qed.

Lemma get_slice_below (i j : nat) :
  (i < m)%nat -> (j < n)%nat ->
  np.get (np.slice2 (np.from 2) (np.between 1 1) T_pad) i j =
  np.get T (S i `min` (m - 1))%nat j.
Proof.
  intros Hi Hj. unfold np.slice2, np.get.
  rewrite list_lookup_fmap.
  rewrite (lookup_from_pad_edge _ _ _ Hpad) by (rewrite length_rows; lia).
  rewrite length_rows, <- list_lookup_fmap.
  by rewrite (mapM_pad_edge_centre _ _ Hrows).
Qed.

Lemma get_slice_above (i j : nat) :
  (i < m)%nat -> (j < n)%nat ->
  np.get (np.slice2 (np.upto_last 2) (np.between 1 1) T_pad) i j =
  np.get T (pred i) j.
Proof.
  intros Hi Hj. unfold np.slice2, np.get.
  rewrite list_lookup_fmap.
  rewrite (lookup_upto_last_pad_edge _ _ _ Hpad) by (rewrite length_rows; lia).
  rewrite <- list_lookup_fmap.
  by rewrite (mapM_pad_edge_centre _ _ Hrows).
Qed.

Lemma shape_slice_rows (cols : list R -> list R) (rws : np.array2 -> np.array2) :
  length (rws T_pad) = m ->
  Forall (fun r => length (cols r) = n) (rws T_pad) ->
  shape m n (np.slice2 rws cols T_pad).
Proof.
  intros Hl Hr. split; unfold np.slice2; [by rewrite length_fmap|].
  by apply Forall_fmap.
Qed.
End padded.

(** ** Conduction, cell by cell *)

Lemma pad_edge_Forall {A : Type} (P : A -> Prop) (l k : list A) :
  np.pad_edge l = Some k -> Forall P l -> Forall P k.
Proof.
  intros H Hl. apply pad_edge_inv in H as (a & z & Ha & Hz & ->).
  rewrite Forall_lookup in Hl.
  constructor; [eauto|]. apply Forall_app. split; [by apply Forall_lookup|].
  constructor; [eauto|constructor].
Qed.

Section padded_shapes.
Context (m n : nat) (T rows T_pad : np.array2).
Context (HT : shape m n T).
Context (Hrows : mapM np.pad_edge T = Some rows).
Context (Hpad : np.pad_edge rows = Some T_pad).

Lemma rows_padded :
  Forall (fun r' => exists r, length r = n /\ np.pad_edge r = Some r') rows.
Proof.
  apply Forall_lookup. intros i r' Hi.
  apply mapM_Some_1 in Hrows.
  destruct (Forall2_lookup_r _ _ _ _ _ Hrows Hi) as (r & Hr & Hp).
  exists r. split; [|done]. eapply shape_row; eauto.
Qed.

Lemma shape_slice_right :
  shape m n (np.slice2 (np.between 1 1) (np.from 2) T_pad).
Proof.
  unfold np.slice2. rewrite (between_pad_edge _ _ Hpad).
  split; [rewrite length_fmap; eapply length_rows; eauto|].
  apply Forall_fmap. eapply Forall_impl; [apply rows_padded|].
  intros r' (r & Hn & Hp). simpl. rewrite <- Hn. by apply length_from_pad_edge.
Qed.

Lemma shape_slice_left :
  shape m n (np.slice2 (np.between 1 1) (np.upto_last 2) T_pad).
Proof.
  unfold np.slice2. rewrite (between_pad_edge _ _ Hpad).
  split; [rewrite length_fmap; eapply length_rows; eauto|].
  apply Forall_fmap. eapply Forall_impl; [apply rows_padded|].
  intros r' (r & Hn & Hp). simpl. rewrite <- Hn. by apply length_upto_last_pad_edge.
Qed.

Lemma T_pad_centre :
  Forall (fun r' => length (np.between 1 1 r') = n) T_pad.
Proof.
  eapply pad_edge_Forall; [exact Hpad|].
  eapply Forall_impl; [apply rows_padded|].
  intros r' (r & Hn & Hp). simpl. by rewrite (between_pad_edge _ _ Hp).
Qed.

Lemma shape_slice_below :
  shape m n (np.slice2 (np.from 2) (np.between 1 1) T_pad).
Proof.
  unfold np.slice2. split.
  - rewrite length_fmap, (length_from_pad_edge _ _ Hpad).
    eapply length_rows; eauto.
  - apply Forall_fmap. unfold np.from. apply Forall_drop, T_pad_centre.
Qed.

Lemma shape_slice_above :
  shape m n (np.slice2 (np.upto_last 2) (np.between 1 1) T_pad).
Proof.
  unfold np.slice2. split.
  - rewrite length_fmap, (length_upto_last_pad_edge _ _ Hpad).
    eapply length_rows; eauto.
  - apply Forall_fmap. unfold np.upto_last. apply Forall_take, T_pad_centre.
Qed.
End padded_shapes.

(** What [compute_conduction] returns on a non-empty array: the shape is
    kept, and each cell is differenced against its four neighbours, the
    index of a neighbour being clamped to the grid. *)
Lemma compute_conduction_cells (self : SimplifiedPhysicsSolver) (m n : nat) (T : np.array2) :
  shape m n T -> (0 < m)%nat -> (0 < n)%nat ->
  exists Q_cond,
    compute_conduction self T = Ok Q_cond /\ shape m n Q_cond /\
    forall i j t, np.get T i j = Some t ->
      exists t_right t_left t_below t_above,
        np.get T i (S j `min` (n - 1))%nat = Some t_right /\
        np.get T i (pred j) = Some t_left /\
        np.get T (S i `min` (m - 1))%nat j = Some t_below /\
        np.get T (pred i) j = Some t_above /\
        np.get Q_cond i j =
          Some (thermal_conductivity (params self) / (2330.0 * 700.0) *
                ((t_right - 2 * t + t_left) / dx ^ 2 +
                 (t_below - 2 * t + t_above) / dy ^ 2) *
                2330.0 * 700.0 * cell_area * dx).
Proof.
  intros HT Hm Hn.
  destruct (pad_Ok m n T HT Hm Hn) as (rows & T_pad & Hrows & Hpad & HOk & _).
  unfold compute_conduction. rewrite HOk. simpl bind.
  rewrite (slice_centre _ _ _ Hrows Hpad).
  eexists. split; [reflexivity|]. split.
  - apply shape_map1, shape_map2; apply shape_map1, shape_map2;
      try apply shape_map2; try apply shape_map1;
      eauto using shape_slice_right, shape_slice_left, shape_slice_below, shape_slice_above.
  - intros i j t Ht.
    destruct (get_Some_lt _ _ _ _ _ _ HT Ht) as [Hi Hj].
    destruct (get_shape m n T i (S j `min` (n - 1))%nat HT) as [tr Htr]; [lia..|].
    destruct (get_shape m n T i (pred j) HT) as [tl Htl]; [lia..|].
    destruct (get_shape m n T (S i `min` (m - 1))%nat j HT) as [tb Htb]; [lia..|].
    destruct (get_shape m n T (pred i) j HT) as [ta Hta]; [lia..|].
    exists tr, tl, tb, ta. repeat (split; [done|]).
    rewrite get_map1.
    erewrite get_map2; [reflexivity| |].
    + rewrite get_map1. erewrite get_map2; [reflexivity| |].
      * erewrite get_map2; [reflexivity| |].
        -- erewrite get_slice_right; eauto.
        -- rewrite get_map1, Ht. reflexivity.
      * erewrite get_slice_left; eauto.
    + rewrite get_map1. erewrite get_map2; [reflexivity| |].
      * erewrite get_map2; [reflexivity| |].
        -- erewrite get_slice_below; eauto.
        -- rewrite get_map1, Ht. reflexivity.
      * erewrite get_slice_above; eauto.
Qed.

(** ** Solar absorption and electrical generation *)

Lemma length_linspace (start stop : R) (num : nat) :
  length (np.linspace start stop num) = num.
Proof.
  unfold np.linspace.
  destruct (1 <? num)%nat, (0 <? num - 1)%nat;
    rewrite ?length_insert, !length_fmap, length_seq; reflexivity.
Qed.

Lemma linspace_unit (num : nat) :
  Forall (fun v => 0 <= v <= 1) (np.linspace 0 1 num).
Proof.
  unfold np.linspace.
  assert (Forall (fun v => 0 <= v <= 1)
            ((fun a => a + 0) <$>
             (if (0 <? num - 1)%nat
              then (fun a => a * ((1 - 0) / INR (num - 1))) <$> (INR <$> seq 0 num)
              else (fun a => a * (1 - 0)) <$> (INR <$> seq 0 num)))) as H.
  { apply Forall_fmap.
    destruct (0 <? num - 1)%nat eqn:E.
    - apply Nat.ltb_lt in E.
      apply Forall_fmap, Forall_fmap, Forall_forall. intros j Hj. simpl.
      apply elem_of_seq in Hj.
      assert (0 <= INR j) by apply pos_INR.
      assert (INR j <= INR (num - 1)) by (apply le_INR; lia).
      assert (0 < INR (num - 1)) by (apply lt_0_INR; lia).
      rewrite Rplus_0_r, Rminus_0_r. unfold Rdiv. rewrite Rmult_1_l. split.
      + apply Rmult_le_pos; [done|]. left. by apply Rinv_0_lt_compat.
      + apply (Rmult_le_reg_r (INR (num - 1))); [done|].
        rewrite Rmult_assoc, Rinv_l by lra. lra.
    - apply Nat.ltb_ge in E.
      apply Forall_fmap, Forall_fmap, Forall_forall. intros j Hj. simpl.
      apply elem_of_seq in Hj.
      replace j with 0%nat by lia. simpl. lra. }
  destruct (1 <? num)%nat; [|exact H].
  apply Forall_insert; [exact H|lra].
Qed.

Lemma exp_nonpos_le_1 (x : R) : x <= 0 -> exp x <= 1.
Proof.
  intros [Hlt| ->].
  - left. rewrite <- exp_0. by apply exp_increasing.
  - rewrite exp_0. lra.
Qed.

Lemma edge_factor_bounds (X Y : R) :
  0 <= X <= 1 -> 0 <= Y <= 1 -> 0.6 <= edge_factor X Y < 1.
Proof.
  intros HX HY. unfold edge_factor.
  pose proof (exp_pos (-10 * X)). pose proof (exp_pos (-10 * (1 - X))).
  pose proof (exp_pos (-10 * Y)). pose proof (exp_pos (-10 * (1 - Y))).
  assert (exp (-10 * X) <= 1) by (apply exp_nonpos_le_1; lra).
  assert (exp (-10 * (1 - X)) <= 1) by (apply exp_nonpos_le_1; lra).
  assert (exp (-10 * Y) <= 1) by (apply exp_nonpos_le_1; lra).
  assert (exp (-10 * (1 - Y)) <= 1) by (apply exp_nonpos_le_1; lra).
  lra.
Qed.


Lemma shape_solar_absorption (self : SimplifiedPhysicsSolver) :
  shape (ny (params self)) (nx (params self)) (compute_solar_absorption self).
Proof.
  unfold compute_solar_absorption, np.meshgrid.
  rewrite !length_linspace.
  apply shape_map1, shape_map2.
  - split; [apply length_replicate|].
    apply Forall_replicate, length_linspace.
  - split; [by rewrite length_fmap, length_linspace|].
    apply Forall_fmap, Forall_forall. intros v _. simpl. apply length_replicate.
Qed.

Lemma solar_absorption_cells (self : SimplifiedPhysicsSolver) :
  all_cells (fun q => exists e, 0.6 <= e < 1 /\ q = base_absorption (params self) * e)
    (compute_solar_absorption self).
Proof.
  unfold compute_solar_absorption, np.meshgrid.
  rewrite !length_linspace.
  apply (all_cells_map1 (fun e => 0.6 <= e < 1)); [intros e He; eauto|].
  apply (all_cells_map2 (fun v => 0 <= v <= 1) (fun v => 0 <= v <= 1)).
  - intros; by apply edge_factor_bounds.
  - apply Forall_replicate, linspace_unit.
  - apply Forall_fmap. eapply Forall_impl; [apply linspace_unit|].
    intros v Hv. simpl. by apply Forall_replicate.
Qed.

Lemma solar_absorption_params (s1 s2 : SimplifiedPhysicsSolver) :
  params s1 = params s2 -> compute_solar_absorption s1 = compute_solar_absorption s2.
Proof. intros H. unfold compute_solar_absorption. by rewrite H. Qed.

Lemma eta_T_bounds (self : SimplifiedPhysicsSolver) (t : R) :
  0.05 <= eta_T self t <= 0.30.
Proof. unfold eta_T. apply clip1_bounds. lra. Qed.

Lemma electrical_generation_cells (self : SimplifiedPhysicsSolver) (T : np.array2) :
  all_cells (fun v => exists eta e, 0.05 <= eta <= 0.30 /\ 0.6 <= e < 1 /\
                        v = eta * (base_absorption (params self) * e))
    (compute_electrical_generation self T).
Proof.
  unfold compute_electrical_generation.
  apply (all_cells_map2 (fun eta => 0.05 <= eta <= 0.30)
           (fun q => exists e, 0.6 <= e < 1 /\ q = base_absorption (params self) * e)).
  - intros eta q Heta (e & He & ->). eauto.
  - apply (all_cells_map1 (fun _ => True)); [|apply all_cells_True].
    intros t _. apply eta_T_bounds.
  - apply solar_absorption_cells.
Qed.

Lemma shape_electrical_generation (self : SimplifiedPhysicsSolver) (T : np.array2) :
  shape (ny (params self)) (nx (params self)) T ->
  shape (ny (params self)) (nx (params self)) (compute_electrical_generation self T).
Proof.
  intros HT. unfold compute_electrical_generation.
  apply shape_map2; [by apply shape_map1|apply shape_solar_absorption].
Qed.

(** ** The time-stepping loop *)

Lemma all_cells_impl (P Q : R -> Prop) (a : np.array2) :
  (forall v, P v -> Q v) -> all_cells P a -> all_cells Q a.
Proof.
  intros H Ha. eapply Forall_impl; [exact Ha|].
  intros row Hrow. eapply Forall_impl; [exact Hrow|]. exact H.
Qed.

Lemma shaped_start (p : SimulationParameters) : shaped p (start p).
Proof.
  split; [done|]. split; simpl.
  - apply shape_map1, shape_replicate.
  - apply shape_replicate.
Qed.

Lemma temperature_init (p : SimulationParameters) :
  temperature (init p) = replicate (ny p) (replicate (nx p) (ambient_temperature p)).
Proof.
  simpl. unfold np.map1, np.ones.
  rewrite fmap_replicate. f_equal. rewrite fmap_replicate. f_equal. lra.
Qed.

Lemma time_step_shaped (p : SimulationParameters) (st : LoopState) (step : nat) :
  nonempty_grid p -> shaped p st ->
  exists st',
    time_step st step = Ok st' /\ shaped p st' /\
    all_cells safe (temperature (solver st')) /\
    power_generation (solver st') =
      compute_electrical_generation (solver st) (temperature (solver st)).
Proof.
  intros [Hnx Hny] (Hp & HT & HP). subst p.
  unfold time_step.
  destruct (compute_conduction_cells
              {| params := params (solver st);
                 temperature := temperature (solver st);
                 power_generation :=
                   compute_electrical_generation (solver st) (temperature (solver st)) |}
              _ _ _ HT Hny Hnx) as (Q_cond & HQ & HsQ & _).
  simpl temperature. rewrite HQ. simpl bind.
  eexists. split; [reflexivity|].
  assert (forall h1 h2 s, solver (if (step mod 10 =? 0)%nat
             then {| solver := s; T_history := h1; P_history := h2 |}
             else {| solver := s; T_history := T_history st; P_history := P_history st |}) = s) as Hsolver.
  { intros. by destruct (step mod 10 =? 0)%nat. }
  unfold shaped. rewrite !Hsolver.
  cbn [solver temperature power_generation params].
  split; [split; [done|split]|split; [|done]].
  - unfold np.clip, Q_net.
    repeat first [apply shape_solar_absorption | assumption
                 | apply shape_map1 | apply shape_map2].
  - by apply shape_electrical_generation.
  - eapply all_cells_impl; [|apply (all_cells_clip 200.0 450.0); lra].
    intros v. unfold safe. simpl. lra.
Qed.

Lemma time_integration_app (steps1 steps2 : list nat) (st : LoopState) :
  time_integration (steps1 ++ steps2) st =
  bind (time_integration steps1 st) (time_integration steps2).
Proof.
  revert st. induction steps1 as [|s steps1 IH]; intros st; [done|].
  simpl. destruct (time_step st s); simpl; [apply IH|done].
Qed.

(** An invariant that every step re-establishes holds after the loop, and
    the loop raises nothing. *)
Lemma time_integration_invariant (I : LoopState -> Prop) :
  (forall st step, I st -> exists st', time_step st step = Ok st' /\ I st') ->
  forall steps st, I st -> exists st', time_integration steps st = Ok st' /\ I st'.
Proof.
  intros Hstep steps. induction steps as [|s steps IH]; intros st Hst.
  - exists st. done.
  - destruct (Hstep st s Hst) as (st1 & H1 & HI1).
    destruct (IH st1 HI1) as (st' & H' & HI').
    exists st'. simpl. rewrite H1. done.
Qed.

Lemma time_integration_shaped (p : SimulationParameters) (steps : list nat) (st : LoopState) :
  nonempty_grid p -> shaped p st ->
  exists st', time_integration steps st = Ok st' /\ shaped p st'.
Proof.
  intros Hne. apply time_integration_invariant.
  intros st0 step H0.
  destruct (time_step_shaped p st0 step Hne H0) as (st' & ? & ? & _). eauto.
Qed.

Lemma time_integration_safe (p : SimulationParameters) (steps : list nat) (st : LoopState) :
  nonempty_grid p -> shaped p st -> all_cells safe (temperature (solver st)) ->
  exists st', time_integration steps st = Ok st' /\ shaped p st' /\
              all_cells safe (temperature (solver st')).
Proof.
  intros Hne Hs Hsafe.
  apply (time_integration_invariant
           (fun st => shaped p st /\ all_cells safe (temperature (solver st))));
    [|done].
  intros st0 step [H0 _].
  destruct (time_step_shaped p st0 step Hne H0) as (st' & ? & ? & ? & _). eauto.
Qed.

(** After at least one step the power grid is the electrical generation
    computed in the last step. *)
Lemma time_integration_power (p : SimulationParameters) (n : nat) (st : LoopState) :
  nonempty_grid p -> shaped p st ->
  exists st1 st',
    time_integration (seq 0 (S n)) st = Ok st' /\ shaped p st1 /\ shaped p st' /\
    power_generation (solver st') =
      compute_electrical_generation (solver st1) (temperature (solver st1)).
Proof.
  intros Hne Hs. rewrite seq_S, time_integration_app.
  destruct (time_integration_shaped p (seq 0 n) st Hne Hs) as (st1 & H1 & Hs1).
  rewrite H1. cbn [bind time_integration].
  destruct (time_step_shaped p st1 (0 + n) Hne Hs1) as (st' & H' & Hs' & _ & HP).
  exists st1, st'. rewrite H'. done.
Qed.

(** ** The result of a run *)

Lemma flat_nonempty (m n : nat) (a : np.array2) :
  shape m n a -> (0 < m)%nat -> (0 < n)%nat -> exists v vs, np.flat a = v :: vs.
Proof.
  intros [Hl Hr] Hm Hn. destruct a as [|r a]; [simpl in Hl; lia|].
  apply Forall_cons in Hr as [Hr _].
  destruct r as [|v r]; [simpl in Hr; lia|].
  exists v, (r ++ concat a). reflexivity.
Qed.

(** On a grid with at least one cell [run_simulation] raises nothing; its
    two fields are the grids the loop ends with. *)
Lemma run_simulation_Ok (p : SimulationParameters) (w : World) :
  nonempty_grid p ->
  exists st r,
    time_integration (seq 0 (n_steps p)) (start p) = Ok st /\ shaped p st /\
    (run_simulation (init p) w).1 = Ok r /\
    temperature_field r = temperature (solver st) /\
    power_field r = power_generation (solver st).
Proof.
  intros Hne.
  destruct (time_integration_shaped p (seq 0 (n_steps p)) (start p) Hne (shaped_start p))
    as (st & Hst & Hs).
  pose proof Hs as (_ & HT & _). destruct Hne as [Hnx Hny].
  destruct (flat_nonempty _ _ _ HT Hny Hnx) as (v & vs & Hflat).
  unfold run_simulation. cbn [now emit params init n_steps].
  unfold start in Hst. cbn [init] in Hst. rewrite Hst.
  unfold np.max, np.min. rewrite Hflat.
  eexists st, _. split; [done|]. split; [done|].
  split; [reflexivity|]. done.
Qed.

(** ** The conduction stencil *)

Lemma all_cells_get (P : R -> Prop) (a : np.array2) :
  (forall i j v, np.get a i j = Some v -> P v) -> all_cells P a.
Proof.
  intros H. apply Forall_lookup. intros i row Hrow.
  apply Forall_lookup. intros j v Hv.
  apply (H i j). unfold np.get. by rewrite Hrow.
Qed.

Lemma get_all_cells (P : R -> Prop) (a : np.array2) (i j : nat) (v : R) :
  all_cells P a -> np.get a i j = Some v -> P v.
Proof.
  intros Ha Hg. unfold np.get in Hg.
  destruct (a !! i) as [row|] eqn:Hrow; [|done].
  unfold all_cells in Ha. rewrite Forall_lookup in Ha.
  specialize (Ha i row Hrow). rewrite Forall_lookup in Ha. eauto.
Qed.

Lemma get_replicate (m n i j : nat) (c v : R) :
  np.get (replicate m (replicate n c)) i j = Some v -> v = c.
Proof.
  unfold np.get. intros H.
  destruct (replicate m (replicate n c) !! i) as [row|] eqn:Hrow; [|done].
  apply lookup_replicate in Hrow as [-> _].
  apply lookup_replicate in H as [-> _]. done.
Qed.

Section neighbours.
Context (m n : nat) (T : np.array2) (HT : shape m n T).

Lemma neighbour_right (i j : nat) (t t' : R) :
  np.get T i j = Some t -> np.get T i (S j `min` (n - 1))%nat = Some t' ->
  neighbour T (Some i) (Some (S j)) t = t'.
Proof.
  intros Ht Ht'. destruct (get_Some_lt _ _ _ _ _ _ HT Ht) as [Hi Hj].
  simpl. destruct (decide (S j < n)%nat).
  - rewrite Nat.min_l in Ht' by lia. by rewrite Ht'.
  - rewrite Nat.min_r in Ht' by lia.
    replace (n - 1)%nat with j in Ht' by lia.
    destruct (np.get T i (S j)) as [u|] eqn:Hu; simpl; [|congruence].
    apply (get_Some_lt _ _ _ _ _ _ HT) in Hu. lia.
Qed.

Lemma neighbour_below (i j : nat) (t t' : R) :
  np.get T i j = Some t -> np.get T (S i `min` (m - 1))%nat j = Some t' ->
  neighbour T (Some (S i)) (Some j) t = t'.
Proof.
  intros Ht Ht'. destruct (get_Some_lt _ _ _ _ _ _ HT Ht) as [Hi Hj].
  simpl. destruct (decide (S i < m)%nat).
  - rewrite Nat.min_l in Ht' by lia. by rewrite Ht'.
  - rewrite Nat.min_r in Ht' by lia.
    replace (m - 1)%nat with i in Ht' by lia.
    destruct (np.get T (S i) j) as [u|] eqn:Hu; simpl; [|congruence].
    apply (get_Some_lt _ _ _ _ _ _ HT) in Hu. lia.
Qed.

Lemma neighbour_left (i j : nat) (t t' : R) :
  np.get T i j = Some t -> np.get T i (pred j) = Some t' ->
  neighbour T (Some i) (before j) t = t'.
Proof.
  intros Ht Ht'. destruct j as [|j]; simpl in *; [congruence|by rewrite Ht'].
Qed.

Lemma neighbour_above (i j : nat) (t t' : R) :
  np.get T i j = Some t -> np.get T (pred i) j = Some t' ->
  neighbour T (before i) (Some j) t = t'.
Proof.
  intros Ht Ht'. destruct i as [|i]; simpl in *; [congruence|by rewrite Ht'].
Qed.
End neighbours.

(** ** The route *)

Lemma nonempty_request (data : Request) : nonempty_grid (request_parameters data).
Proof. split; simpl; lia. Qed.

(** The first check. *)
Lemma api_simulate_solar_irradiance (data : Request) (w : World) :
  ~ (800 <= solar_irradiance (request_parameters data) /\
     solar_irradiance (request_parameters data) <= 1200) ->
  api_simulate data w = (Error 400 "Solar irradiance out of range [800-1200]", w).
Proof.
  intros H. unfold api_simulate. by rewrite (bool_decide_eq_false_2 _ H).
Qed.

Lemma api_simulate_validated (data : Request) (w : World) :
  validated (request_parameters data) ->
  exists r,
    (run_simulation (init (request_parameters data)) w).1 = Ok r /\
    (api_simulate data w).1 = Success r (request_parameters data) /\
    (api_simulate data w).2 = (run_simulation (init (request_parameters data)) w).2.
Proof.
  intros (H1 & H2 & H3 & H4).
  destruct (run_simulation_Ok _ w (nonempty_request data)) as (_ & r & _ & _ & Hr & _).
  exists r. split; [exact Hr|].
  unfold api_simulate.
  rewrite (bool_decide_eq_true_2 _ H1), (bool_decide_eq_true_2 _ H2),
          (bool_decide_eq_true_2 _ H3), (bool_decide_eq_true_2 _ H4).
  cbn [negb].
  destruct (run_simulation (init (request_parameters data)) w) as [res w'].
  cbn [fst] in Hr. subst res. split; reflexivity.
Qed.

Lemma api_simulate_ambient_temperature (data : Request) (w : World) :
  (800 <= solar_irradiance (request_parameters data) /\
   solar_irradiance (request_parameters data) <= 1200) ->
  ~ (280 <= ambient_temperature (request_parameters data) /\
     ambient_temperature (request_parameters data) <= 330) ->
  api_simulate data w = (Error 400 "Ambient temperature out of range [280-330]", w).
Proof.
  intros H1 H2. unfold api_simulate.
  by rewrite (bool_decide_eq_true_2 _ H1), (bool_decide_eq_false_2 _ H2).
Qed.

Lemma api_simulate_wind_speed (data : Request) (w : World) :
  (800 <= solar_irradiance (request_parameters data) /\
   solar_irradiance (request_parameters data) <= 1200) ->
  (280 <= ambient_temperature (request_parameters data) /\
   ambient_temperature (request_parameters data) <= 330) ->
  ~ (0 <= wind_speed (request_parameters data) /\
     wind_speed (request_parameters data) <= 10) ->
  api_simulate data w = (Error 400 "Wind speed out of range [0-10]", w).
Proof.
  intros H1 H2 H3. unfold api_simulate.
  by rewrite (bool_decide_eq_true_2 _ H1), (bool_decide_eq_true_2 _ H2),
             (bool_decide_eq_false_2 _ H3).
Qed.

Lemma api_simulate_cell_efficiency (data : Request) (w : World) :
  (800 <= solar_irradiance (request_parameters data) /\
   solar_irradiance (request_parameters data) <= 1200) ->
  (280 <= ambient_temperature (request_parameters data) /\
   ambient_temperature (request_parameters data) <= 330) ->
  (0 <= wind_speed (request_parameters data) /\
   wind_speed (request_parameters data) <= 10) ->
  ~ (0.10 <= cell_efficiency (request_parameters data) /\
     cell_efficiency (request_parameters data) <= 0.30) ->
  api_simulate data w = (Error 400 "Cell efficiency out of range [0.10-0.30]", w).
Proof.
  intros H1 H2 H3 H4. unfold api_simulate.
  by rewrite (bool_decide_eq_true_2 _ H1), (bool_decide_eq_true_2 _ H2),
             (bool_decide_eq_true_2 _ H3), (bool_decide_eq_false_2 _ H4).
Qed.

Lemma validated_dec (p : SimulationParameters) : validated p \/ ~ validated p.
Proof.
  unfold validated.
  destruct (decide (800 <= solar_irradiance p /\ solar_irradiance p <= 1200));
  destruct (decide (280 <= ambient_temperature p /\ ambient_temperature p <= 330));
  destruct (decide (0 <= wind_speed p /\ wind_speed p <= 10));
  destruct (decide (0.10 <= cell_efficiency p /\ cell_efficiency p <= 0.30));
  tauto.
Qed.

Lemma api_simulate_rejected (data : Request) (w : World) :
  ~ validated (request_parameters data) ->
  exists msg, api_simulate data w = (Error 400 msg, w).
Proof.
  intros Hnv.
  destruct (decide (800 <= solar_irradiance (request_parameters data) /\
                    solar_irradiance (request_parameters data) <= 1200)) as [H1|H1];
    [|eexists; by apply api_simulate_solar_irradiance].
  destruct (decide (280 <= ambient_temperature (request_parameters data) /\
                    ambient_temperature (request_parameters data) <= 330)) as [H2|H2];
    [|eexists; by apply api_simulate_ambient_temperature].
  destruct (decide (0 <= wind_speed (request_parameters data) /\
                    wind_speed (request_parameters data) <= 10)) as [H3|H3];
    [|eexists; by apply api_simulate_wind_speed].
  destruct (decide (0.10 <= cell_efficiency (request_parameters data) /\
                    cell_efficiency (request_parameters data) <= 0.30)) as [H4|H4];
    [|eexists; by apply api_simulate_cell_efficiency].
  exfalso. apply Hnv. unfold validated. tauto.
Qed.

(** What a run writes to the log: one record of its start, with its
    parameters, and nothing else that reports a start. *)
Lemma run_simulation_log (self : SimplifiedPhysicsSolver) (w : World) :
  exists tail,
    log (run_simulation self w).2 = log w ++ InfoStarting (params self) :: tail /\
    forall q, InfoStarting q ∉ tail.
Proof.
  unfold run_simulation. cbn [now emit].
  destruct (time_integration _ _) as [st|e].
  - destruct (np.max _) as [T_max|e1]; [destruct (np.min _) as [T_min|e2]|].
    + eexists [_]. cbn [snd log emit]. rewrite <- app_assoc. split; [reflexivity|].
      intros q Hq. apply list_elem_of_singleton in Hq. discriminate.
    + exists []. split; [reflexivity|]. intros q Hq. by apply elem_of_nil in Hq.
    + exists []. split; [reflexivity|]. intros q Hq. by apply elem_of_nil in Hq.
  - exists []. split; [reflexivity|]. intros q Hq. by apply elem_of_nil in Hq.
Qed.

(** ** One step, cell by cell *)

Lemma compute_conduction_params (s1 s2 : SimplifiedPhysicsSolver) (T : np.array2) :
  params s1 = params s2 -> compute_conduction s1 T = compute_conduction s2 T.
Proof. intros H. unfold compute_conduction. by rewrite H. Qed.

Lemma time_step_cell (st st' : LoopState) (step i j : nat) (Q_cond : np.array2)
    (t q_solar q_cond : R) :
  time_step st step = Ok st' ->
  compute_conduction (solver st) (temperature (solver st)) = Ok Q_cond ->
  np.get (temperature (solver st)) i j = Some t ->
  np.get (compute_solar_absorption (solver st)) i j = Some q_solar ->
  np.get Q_cond i j = Some q_cond ->
  np.get (temperature (solver st')) i j =
    Some (np.clip1 200.0 450.0
            (t + ((1.0 - cell_efficiency (params (solver st))) * q_solar -
                  h_conv (solver st) * cell_area *
                    (t - ambient_temperature (params (solver st))) -
                  emissivity (params (solver st)) * STEFAN_BOLTZMANN * cell_area *
                    (t ^ 4 - (ambient_temperature (params (solver st)) - 10.0) ^ 4) +
                  q_cond) *
                 dt (params (solver st)) / (2330.0 * cell_area * 0.002 * 700.0))) /\
  np.get (power_generation (solver st')) i j = Some (eta_T (solver st) t * q_solar).
Proof.
  intros Hstep Hcond Ht Hs Hc. unfold time_step in Hstep.
  rewrite (compute_conduction_params _ (solver st)) in Hstep by reflexivity.
  cbn [temperature] in Hstep. rewrite Hcond in Hstep. cbn [bind] in Hstep.
  assert (solver st' =
          {| params := params (solver st);
             temperature :=
               np.clip
                 (np.map2 Rplus (temperature (solver st))
                    (np.map1
                       (fun q => q * dt (params (solver st)) /
                                 (2330.0 * cell_area * 0.002 * 700.0))
                       (Q_net
                          {| params := params (solver st);
                             temperature := temperature (solver st);
                             power_generation :=
                               compute_electrical_generation (solver st)
                                 (temperature (solver st)) |}
                          (compute_solar_absorption (solver st))
                          (compute_convective_cooling (solver st) (temperature (solver st)))
                          (compute_radiative_cooling (solver st) (temperature (solver st)))
                          Q_cond)))
                 200.0 450.0;
             power_generation :=
               compute_electrical_generation (solver st) (temperature (solver st)) |})
    as ->.
  { destruct (step mod 10 =? 0)%nat; injection Hstep as <-; reflexivity. }
  cbn [temperature power_generation params]. split.
  - unfold np.clip. rewrite get_map1.
    erewrite get_map2; [reflexivity|exact Ht|].
    rewrite get_map1. unfold Q_net.
    erewrite get_map2; [reflexivity| |exact Hc].
    erewrite get_map2; [reflexivity| |].
    + erewrite get_map2; [reflexivity| |].
      * by rewrite get_map1, Hs.
      * unfold compute_convective_cooling. by rewrite get_map1, Ht.
    + unfold compute_radiative_cooling. by rewrite get_map1, Ht.
  - unfold compute_electrical_generation.
    erewrite get_map2; [reflexivity| |exact Hs].
    by rewrite get_map1, Ht.
Qed.

Lemma eta_T_below_nominal (self : SimplifiedPhysicsSolver) (t : R) :
  validated (params self) -> 298.15 < t -> eta_T self t < cell_efficiency (params self).
Proof.
  intros (_ & _ & _ & He) Ht. unfold eta_T, np.clip1.
  eapply Rle_lt_trans; [apply Rmin_r|].
  apply Rmax_lub_lt; [nra|lra].
Qed.

(** ** The power grid *)

Lemma electrical_generation_generated (self : SimplifiedPhysicsSolver) (T : np.array2) :
  all_cells (generated (params self)) (compute_electrical_generation self T).
Proof. apply electrical_generation_cells. Qed.

(** The power grid after [k] steps: all zero before the first step, generated
    by the last step afterwards. *)
Lemma power_after (p : SimulationParameters) (k : nat) :
  nonempty_grid p ->
  exists st,
    time_integration (seq 0 k) (start p) = Ok st /\ shaped p st /\
    (k = 0%nat -> power_generation (solver st) = np.zeros (ny p) (nx p)) /\
    ((0 < k)%nat -> all_cells (generated p) (power_generation (solver st))).
Proof.
  intros Hne. destruct k as [|n].
  - exists (start p). split; [reflexivity|]. split; [apply shaped_start|].
    split; [reflexivity|lia].
  - destruct (time_integration_power p n (start p) Hne (shaped_start p))
      as (st1 & st' & Hst' & (Hp1 & _) & Hs' & HP).
    exists st'. split; [exact Hst'|]. split; [exact Hs'|]. split; [lia|].
    intros _. rewrite HP, <- Hp1. apply electrical_generation_generated.
Qed.

Lemma generated_bounds (p : SimulationParameters) (v : R) :
  0 <= solar_irradiance p -> 0 <= absorptivity p -> generated p v ->
  0 <= v <= 0.30 * solar_irradiance p * absorptivity p * 0.01.
Proof.
  intros Hi Ha (eta & e & Heta & He & ->). unfold base_absorption, cell_area.
  assert (0 <= solar_irradiance p * absorptivity p) as Hq
    by (apply Rmult_le_pos; assumption).
  replace (0.30 * solar_irradiance p * absorptivity p * 0.01)
    with (0.30 * (solar_irradiance p * absorptivity p * 0.01)) by ring.
  generalize dependent (solar_irradiance p * absorptivity p). intros Q Hq.
  assert (0 <= Q * 0.01) as Hq' by lra.
  assert (0 <= Q * 0.01 * e) as Hqe by (apply Rmult_le_pos; lra).
  assert (Q * 0.01 * e <= Q * 0.01) as Hle.
  { rewrite <- (Rmult_1_r (Q * 0.01)) at 2. apply Rmult_le_compat_l; lra. }
  split; [apply Rmult_le_pos; lra|].
  apply Rle_trans with (0.30 * (Q * 0.01 * e)); [|lra].
  apply Rmult_le_compat_r; lra.
Qed.

Lemma zeros_cells (P : R -> Prop) (m n : nat) : P 0 -> all_cells P (np.zeros m n).
Proof. apply all_cells_replicate. Qed.

(** Bounds on every cell of the power grid, after any number of steps and in
    the result. *)
Lemma power_cells_bounded (p : SimulationParameters) (P : R -> Prop) :
  nonempty_grid p -> P 0 -> (forall v, generated p v -> P v) ->
  (forall k, (k <= n_steps p)%nat ->
     exists st,
       time_integration (seq 0 k) (start p) = Ok st /\
       time_integration (seq k (n_steps p - k)) st =
         time_integration (seq 0 (n_steps p)) (start p) /\
       all_cells P (power_generation (solver st))) /\
  (forall w, exists r,
     (run_simulation (init p) w).1 = Ok r /\ all_cells P (power_field r)).
Proof.
  intros Hne H0 Hgen.
  assert (forall k, exists st,
            time_integration (seq 0 k) (start p) = Ok st /\
            all_cells P (power_generation (solver st))) as Hk.
  { intros k. destruct (power_after p k Hne) as (st & Hst & _ & Hz & Hg).
    exists st. split; [exact Hst|].
    destruct k as [|n].
    - rewrite Hz by reflexivity. by apply zeros_cells.
    - eapply all_cells_impl; [exact Hgen|]. apply Hg. lia. }
  split.
  - intros k Hle. destruct (Hk k) as (st & Hst & Hcells).
    exists st. split; [exact Hst|]. split; [|exact Hcells].
    replace (n_steps p) with (k + (n_steps p - k))%nat at 2 by lia.
    rewrite seq_app, time_integration_app, Hst. reflexivity.
  - intros w.
    destruct (run_simulation_Ok p w Hne) as (st & r & Hst & _ & Hr & _ & HP).
    exists r. split; [exact Hr|]. rewrite HP.
    destruct (Hk (n_steps p)) as (st' & Hst' & Hcells).
    rewrite Hst in Hst'. injection Hst' as ->. exact Hcells.
Qed.

(** A request that passes the four checks gets a result whose power grid
    was generated, cell by cell, by the last step. *)
Lemma api_simulate_power_cells (data : Request) (w : World) :
  validated (request_parameters data) ->
  exists r,
    (api_simulate data w).1 = Success r (request_parameters data) /\
    shape (ny (request_parameters data)) (nx (request_parameters data))
      (power_field r) /\
    all_cells (generated (request_parameters data)) (power_field r).
Proof.
  intros Hv.
  destruct (api_simulate_validated _ w Hv) as (r & Hrun & Hapi & _).
  pose proof (nonempty_request data) as Hne.
  destruct (run_simulation_Ok _ w Hne) as (st & r' & Hst & _ & Hr' & _ & HP).
  rewrite Hrun in Hr'. injection Hr' as <-. clear Hrun.
  destruct (power_after _ (n_steps (request_parameters data)) Hne)
    as (st' & Hst' & (_ & _ & Hshape) & _ & Hgen).
  rewrite Hst in Hst'. injection Hst' as <-. clear Hst.
  exists r. split; [exact Hapi|]. rewrite HP. split; [exact Hshape|].
  apply Hgen. simpl. lia.
Qed.

(** ** The convection coefficient *)

Lemma h_conv_nonnegative_wind (self : SimplifiedPhysicsSolver) :
  0 <= wind_speed (params self) ->
  h_conv self =
    Rmax 5.0 (10.45 - wind_speed (params self) +
              10.0 * sqrt (wind_speed (params self))).
Proof.
  intros Hv. unfold h_conv.
  destruct (Rle_dec 0 (wind_speed (params self))) as [_|Hn]; [reflexivity|].
  exfalso. exact (Hn Hv).
Qed.

(** * The claims *)

(** C1.  For every parameter object that passes the four range checks, on a
    grid with at least one cell, and for every number of steps: after each
    step of the loop of [run_simulation] (and before the first), every cell
    of the temperature grid lies in [200, 450]; the same holds of the
    [temperature_field] of the result.  The state after [k] steps is the
    one from which the remaining steps lead to the end of the run. *)
Theorem temperature_within_safety_interval (p : SimulationParameters) :
  validated p -> nonempty_grid p ->
  (forall k, (k <= n_steps p)%nat ->
     exists st,
       time_integration (seq 0 k) (start p) = Ok st /\
       time_integration (seq k (n_steps p - k)) st =
         time_integration (seq 0 (n_steps p)) (start p) /\
       all_cells (fun t => 200 <= t <= 450) (temperature (solver st))) /\
  (forall w, exists r,
     (run_simulation (init p) w).1 = Ok r /\
     all_cells (fun t => 200 <= t <= 450) (temperature_field r)).
Proof.
  intros Hv Hne.
  assert (all_cells safe (temperature (solver (start p)))) as H0.
  { unfold start. cbn [solver]. rewrite temperature_init.
    apply all_cells_replicate. destruct Hv as (_ & Ha & _). unfold safe. lra. }
  assert (forall k, exists st,
            time_integration (seq 0 k) (start p) = Ok st /\
            all_cells safe (temperature (solver st))) as Hk.
  { intros k.
    destruct (time_integration_safe p (seq 0 k) (start p) Hne (shaped_start p) H0)
      as (st & Hst & _ & Hsafe). eauto. }
  split.
  - intros k Hle. destruct (Hk k) as (st & Hst & Hsafe).
    exists st. split; [done|]. split; [|exact Hsafe].
    replace (n_steps p) with (k + (n_steps p - k))%nat at 2 by lia.
    rewrite seq_app, time_integration_app, Hst. reflexivity.
  - intros w.
    destruct (run_simulation_Ok p w Hne) as (st & r & Hst & _ & Hr & HT & _).
    exists r. split; [done|]. rewrite HT.
    destruct (Hk (n_steps p)) as (st' & Hst' & Hsafe).
    rewrite Hst in Hst'. injection Hst' as ->. exact Hsafe.
Qed.

Lemma temperature_within_safety_interval_witness :
  (forall k, (k <= n_steps default_parameters)%nat ->
     exists st,
       time_integration (seq 0 k) (start default_parameters) = Ok st /\
       time_integration (seq k (n_steps default_parameters - k)) st =
         time_integration (seq 0 (n_steps default_parameters)) (start default_parameters) /\
       all_cells (fun t => 200 <= t <= 450) (temperature (solver st))) /\
  (forall w, exists r,
     (run_simulation (init default_parameters) w).1 = Ok r /\
     all_cells (fun t => 200 <= t <= 450) (temperature_field r)).
Proof.
  apply (temperature_within_safety_interval default_parameters).
  - unfold validated. simpl. lra.
  - split; simpl; lia.
Defined.

(** C2, counterexample.  With [wind_speed = 0] the coefficient is 10.45, not
    the floor 5.0: [10.45 - 0 + 10 * sqrt 0 = 10.45] and
    [max(5.0, 10.45) = 10.45]. *)
Lemma still_air_coefficient_is_not_the_floor :
  wind_speed (params (init (with_wind_speed 0 default_parameters))) = 0 /\
  h_conv (init (with_wind_speed 0 default_parameters)) = 10.45 /\
  h_conv (init (with_wind_speed 0 default_parameters)) <> 5.0.
Proof.
  assert (h_conv (init (with_wind_speed 0 default_parameters)) = 10.45) as H.
  { rewrite h_conv_nonnegative_wind by (cbn; lra).
    cbn [params init with_wind_speed wind_speed].
    rewrite sqrt_0. rewrite Rmax_right; lra. }
  split; [reflexivity|]. split; [exact H|]. rewrite H. lra.
Qed.

(** C2, amended.  For a wind speed that is not negative, the convective
    loss of a cell at temperature [t] is
    [h * cell_area * (t - ambient_temperature)] with
    [h = max(5.0, 10.45 - v + 10 * sqrt v)]; when [wind_speed = 0] the
    coefficient is exactly 10.45. *)
Theorem convection_coefficient (self : SimplifiedPhysicsSolver) (T : np.array2)
    (i j : nat) (t : R) :
  0 <= wind_speed (params self) ->
  np.get T i j = Some t ->
  np.get (compute_convective_cooling self T) i j =
    Some (Rmax 5.0 (10.45 - wind_speed (params self) +
                    10.0 * sqrt (wind_speed (params self))) *
          cell_area * (t - ambient_temperature (params self))) /\
  (wind_speed (params self) = 0 ->
   h_conv self = 10.45 /\
   np.get (compute_convective_cooling self T) i j =
     Some (10.45 * cell_area * (t - ambient_temperature (params self)))).
Proof.
  intros Hwind Ht.
  assert (np.get (compute_convective_cooling self T) i j =
          Some (h_conv self * cell_area * (t - ambient_temperature (params self)))) as H.
  { unfold compute_convective_cooling. by rewrite get_map1, Ht. }
  pose proof (h_conv_nonnegative_wind self Hwind) as Hformula.
  split; [by rewrite H, Hformula|].
  intros Hv.
  assert (h_conv self = 10.45) as Hh.
  { rewrite Hformula, Hv, sqrt_0. rewrite Rmax_right; lra. }
  split; [exact Hh|]. by rewrite H, Hh.
Qed.

Lemma convection_coefficient_witness :
  np.get (compute_convective_cooling
            (init (with_wind_speed 0 default_parameters)) [[300; 310]]) 0 1 =
    Some (Rmax 5.0
            (10.45 - wind_speed (params (init (with_wind_speed 0 default_parameters))) +
             10.0 * sqrt (wind_speed (params (init (with_wind_speed 0 default_parameters))))) *
          cell_area *
          (310 - ambient_temperature (params (init (with_wind_speed 0 default_parameters))))) /\
  (wind_speed (params (init (with_wind_speed 0 default_parameters))) = 0 ->
   h_conv (init (with_wind_speed 0 default_parameters)) = 10.45 /\
   np.get (compute_convective_cooling
             (init (with_wind_speed 0 default_parameters)) [[300; 310]]) 0 1 =
     Some (10.45 * cell_area *
           (310 - ambient_temperature (params (init (with_wind_speed 0 default_parameters)))))).
Proof.
  apply (convection_coefficient (init (with_wind_speed 0 default_parameters))
           [[300; 310]] 0 1 310).
  - cbn. lra.
  - reflexivity.
Defined.

(** C3, counterexample.  A parameter object with [solar_irradiance = 1500]
    exists: the constructor of [SimulationParameters] checks nothing; it
    fails the range checks, and [run_simulation] on a solver built from it
    returns a result. *)
Lemma out_of_range_parameters_exist_and_run :
  solar_irradiance (with_irradiance 1500 default_parameters) = 1500 /\
  ~ validated (with_irradiance 1500 default_parameters) /\
  exists r,
    (run_simulation (init (with_irradiance 1500 default_parameters)) idle_world).1 = Ok r.
Proof.
  split; [reflexivity|]. split.
  - intros ((_ & H) & _). simpl in H. lra.
  - destruct (run_simulation_Ok (with_irradiance 1500 default_parameters) idle_world)
      as (_ & r & _ & _ & Hr & _); [split; simpl; lia|]. eauto.
Qed.

(** C3, amended.  The route [/api/simulate] builds the parameter object
    first and checks the four ranges next.  When a check fails the route
    answers with status 400 and leaves the world as it was: no clock read,
    no log record, so the solver never ran.  Every start of a simulation
    that the route logs is on the parameters of the request, and these
    passed the four checks. *)
Theorem route_rejects_out_of_range_before_solver (data : Request) (w : World) :
  (~ validated (request_parameters data) ->
   exists msg, api_simulate data w = (Error 400 msg, w)) /\
  (forall q, InfoStarting q ∈ log (api_simulate data w).2 ->
             InfoStarting q ∈ log w \/
             (q = request_parameters data /\ validated q)).
Proof.
  split; [apply api_simulate_rejected|].
  intros q Hq.
  destruct (validated_dec (request_parameters data)) as [Hv|Hnv].
  - destruct (api_simulate_validated data w Hv) as (r & _ & _ & Heq).
    rewrite Heq in Hq. clear Heq.
    destruct (run_simulation_log (init (request_parameters data)) w) as (tail & Hlog & Htail).
    rewrite Hlog in Hq. clear Hlog.
    apply elem_of_app in Hq as [Hq|Hq]; [left; exact Hq|].
    apply elem_of_cons in Hq as [Hq|Hq]; [|exfalso; exact (Htail _ Hq)].
    right. injection Hq as ->. split; [reflexivity|exact Hv].
  - destruct (api_simulate_rejected data w Hnv) as (msg & Heq).
    rewrite Heq in Hq. left. exact Hq.
Qed.

(** C4.  In a step, the new temperature of a cell is the clipped explicit
    Euler update with the net flux
    [(1 - cell_efficiency) * Q_solar - Q_conv - Q_rad + Q_cond], where
    [cell_efficiency] is the configured value; the power of the cell in the
    same step is [clip(cell_efficiency * (1 - 0.004 * (T - 298.15)), 0.05,
    0.30) * Q_solar].  The two efficiencies differ: on validated parameters
    the clipped one is strictly below the configured one in every cell
    hotter than 298.15 K. *)
Theorem net_flux_uses_nominal_efficiency (st st' : LoopState) (step i j : nat)
    (Q_cond : np.array2) (t q_solar q_cond : R) :
  time_step st step = Ok st' ->
  compute_conduction (solver st) (temperature (solver st)) = Ok Q_cond ->
  np.get (temperature (solver st)) i j = Some t ->
  np.get (compute_solar_absorption (solver st)) i j = Some q_solar ->
  np.get Q_cond i j = Some q_cond ->
  np.get (temperature (solver st')) i j =
    Some (np.clip1 200.0 450.0
            (t + ((1.0 - cell_efficiency (params (solver st))) * q_solar -
                  h_conv (solver st) * cell_area *
                    (t - ambient_temperature (params (solver st))) -
                  emissivity (params (solver st)) * STEFAN_BOLTZMANN * cell_area *
                    (t ^ 4 - (ambient_temperature (params (solver st)) - 10.0) ^ 4) +
                  q_cond) *
                 dt (params (solver st)) / (2330.0 * cell_area * 0.002 * 700.0))) /\
  np.get (power_generation (solver st')) i j =
    Some (np.clip1 0.05 0.30
            (cell_efficiency (params (solver st)) * (1.0 - 0.004 * (t - 298.15))) *
          q_solar) /\
  (validated (params (solver st)) -> 298.15 < t ->
   np.clip1 0.05 0.30
     (cell_efficiency (params (solver st)) * (1.0 - 0.004 * (t - 298.15))) <
   cell_efficiency (params (solver st))).
Proof.
  intros Hstep Hcond Ht Hs Hc.
  destruct (time_step_cell st st' step i j Q_cond t q_solar q_cond Hstep Hcond Ht Hs Hc)
    as [HT HP].
  split; [exact HT|]. split; [exact HP|].
  intros Hv Hhot. exact (eta_T_below_nominal (solver st) t Hv Hhot).
Qed.

Lemma net_flux_uses_nominal_efficiency_witness :
  exists (st' : LoopState) (t q_solar q_cond : R),
    time_step (start default_parameters) 0 = Ok st' /\
    np.get (temperature (solver (start default_parameters))) 0 0 = Some t /\
    np.get (temperature (solver st')) 0 0 =
      Some (np.clip1 200.0 450.0
              (t + ((1.0 - cell_efficiency (params (solver (start default_parameters)))) *
                      q_solar -
                    h_conv (solver (start default_parameters)) * cell_area *
                      (t - ambient_temperature (params (solver (start default_parameters)))) -
                    emissivity (params (solver (start default_parameters))) *
                      STEFAN_BOLTZMANN * cell_area *
                      (t ^ 4 -
                       (ambient_temperature (params (solver (start default_parameters))) -
                        10.0) ^ 4) +
                    q_cond) *
                   dt (params (solver (start default_parameters))) /
                   (2330.0 * cell_area * 0.002 * 700.0))) /\
    np.get (power_generation (solver st')) 0 0 =
      Some (np.clip1 0.05 0.30
              (cell_efficiency (params (solver (start default_parameters))) *
               (1.0 - 0.004 * (t - 298.15))) *
            q_solar) /\
    (validated (params (solver (start default_parameters))) -> 298.15 < t ->
     np.clip1 0.05 0.30
       (cell_efficiency (params (solver (start default_parameters))) *
        (1.0 - 0.004 * (t - 298.15))) <
     cell_efficiency (params (solver (start default_parameters)))).
Proof.
  assert (nonempty_grid default_parameters) as Hne by (split; simpl; lia).
  pose proof (shaped_start default_parameters) as Hs.
  destruct (time_step_shaped default_parameters (start default_parameters) 0 Hne Hs)
    as (st' & Hstep & _).
  destruct Hs as (_ & HT & _). destruct Hne as [Hnx Hny].
  destruct (compute_conduction_cells (solver (start default_parameters)) _ _ _ HT Hny Hnx)
    as (Q_cond & Hcond & HsQ & _).
  destruct (get_shape _ _ _ 0 0 HT Hny Hnx) as [t Ht].
  destruct (get_shape _ _ _ 0 0 (shape_solar_absorption (solver (start default_parameters)))
              Hny Hnx) as [q_solar Hq].
  destruct (get_shape _ _ _ 0 0 HsQ Hny Hnx) as [q_cond Hc].
  exists st', t, q_solar, q_cond.
  split; [exact Hstep|]. split; [exact Ht|].
  exact (net_flux_uses_nominal_efficiency (start default_parameters) st' 0 0 0
           Q_cond t q_solar q_cond Hstep Hcond Ht Hq Hc).
Defined.

(** C6.  For every parameter object that passes the four range checks and
    whose absorptivity is not negative, as is every absorptivity in the
    documented range 0.85 to 0.98, on a grid with at least one cell: after
    any number of steps every cell of the power grid is [>= 0], and so is
    every cell of the [power_field] of the result.  The local efficiency is
    clipped to [0.05, 0.30] and the absorbed solar power is then not
    negative in any cell. *)
Theorem power_nonnegative (p : SimulationParameters) :
  validated p -> nonempty_grid p -> 0 <= absorptivity p ->
  (forall k, (k <= n_steps p)%nat ->
     exists st,
       time_integration (seq 0 k) (start p) = Ok st /\
       time_integration (seq k (n_steps p - k)) st =
         time_integration (seq 0 (n_steps p)) (start p) /\
       all_cells (fun v => 0 <= v) (power_generation (solver st))) /\
  (forall w, exists r,
     (run_simulation (init p) w).1 = Ok r /\
     all_cells (fun v => 0 <= v) (power_field r)).
Proof.
  intros ((Hi & _) & _) Hne Ha.
  apply power_cells_bounded; [exact Hne|lra|].
  intros v Hg. apply (generated_bounds p v); [lra|exact Ha|exact Hg].
Qed.

Lemma power_nonnegative_witness :
  (forall k, (k <= n_steps default_parameters)%nat ->
     exists st,
       time_integration (seq 0 k) (start default_parameters) = Ok st /\
       time_integration (seq k (n_steps default_parameters - k)) st =
         time_integration (seq 0 (n_steps default_parameters)) (start default_parameters) /\
       all_cells (fun v => 0 <= v) (power_generation (solver st))) /\
  (forall w, exists r,
     (run_simulation (init default_parameters) w).1 = Ok r /\
     all_cells (fun v => 0 <= v) (power_field r)).
Proof.
  apply (power_nonnegative default_parameters).
  - unfold validated. simpl. lra.
  - split; simpl; lia.
  - simpl. lra.
Defined.

(** C7.  Whatever the other keys of the request, provided they pass their
    own checks: [solar_irradiance = 1500] is answered with status 400 and
    the message naming the solar irradiance and the range [800-1200], the
    world untouched; [solar_irradiance = 800] and [solar_irradiance = 1200]
    are both accepted and answered with the result of a run. *)
Theorem solar_irradiance_bounds_are_inclusive (data : Request) (w : World) :
  later_checks_pass (request_parameters data) ->
  api_simulate (with_solar_irradiance 1500 data) w =
    (Error 400 "Solar irradiance out of range [800-1200]", w) /\
  (exists r, (api_simulate (with_solar_irradiance 800 data) w).1 =
             Success r (request_parameters (with_solar_irradiance 800 data))) /\
  (exists r, (api_simulate (with_solar_irradiance 1200 data) w).1 =
             Success r (request_parameters (with_solar_irradiance 1200 data))).
Proof.
  intros Hlater. split; [|split].
  - apply api_simulate_solar_irradiance. simpl. lra.
  - destruct (api_simulate_validated (with_solar_irradiance 800 data) w) as (r & _ & Hr & _).
    + split; [simpl; lra|exact Hlater].
    + exists r. exact Hr.
  - destruct (api_simulate_validated (with_solar_irradiance 1200 data) w) as (r & _ & Hr & _).
    + split; [simpl; lra|exact Hlater].
    + exists r. exact Hr.
Qed.

Lemma solar_irradiance_bounds_are_inclusive_witness :
  api_simulate (with_solar_irradiance 1500 empty_request) idle_world =
    (Error 400 "Solar irradiance out of range [800-1200]", idle_world) /\
  (exists r, (api_simulate (with_solar_irradiance 800 empty_request) idle_world).1 =
             Success r (request_parameters (with_solar_irradiance 800 empty_request))) /\
  (exists r, (api_simulate (with_solar_irradiance 1200 empty_request) idle_world).1 =
             Success r (request_parameters (with_solar_irradiance 1200 empty_request))).
Proof.
  apply (solar_irradiance_bounds_are_inclusive empty_request idle_world).
  unfold later_checks_pass. simpl. lra.
Defined.

(** C8.  With [n_steps = 0], on a grid with at least one cell, the loop
    leaves the solver as [__init__] built it; the [temperature_field] of
    the result holds [ambient_temperature] in every cell and the
    [power_field] holds 0 in every cell. *)
Theorem zero_steps_keep_initial_fields (p : SimulationParameters) (w : World) :
  n_steps p = 0%nat -> nonempty_grid p ->
  time_integration (seq 0 (n_steps p)) (start p) = Ok (start p) /\
  exists r,
    (run_simulation (init p) w).1 = Ok r /\
    temperature_field r =
      replicate (ny p) (replicate (nx p) (ambient_temperature p)) /\
    power_field r = replicate (ny p) (replicate (nx p) 0).
Proof.
  intros Hn Hne. rewrite Hn. split; [done|].
  destruct (run_simulation_Ok p w Hne) as (st & r & Hst & _ & Hr & HT & HP).
  rewrite Hn in Hst. injection Hst as <-.
  exists r. split; [done|]. rewrite HT, HP. split; [apply temperature_init|done].
Qed.

Lemma zero_steps_keep_initial_fields_witness :
  time_integration (seq 0 (n_steps zero_step_parameters)) (start zero_step_parameters) =
    Ok (start zero_step_parameters) /\
  exists r,
    (run_simulation (init zero_step_parameters) idle_world).1 = Ok r /\
    temperature_field r = replicate 25 (replicate 25 300.0) /\
    power_field r = replicate 25 (replicate 25 0).
Proof.
  apply (zero_steps_keep_initial_fields zero_step_parameters idle_world).
  - reflexivity.
  - split; simpl; lia.
Defined.

(** C9.  On an array with at least one cell [compute_conduction] returns,
    in each cell, [alpha * L * rho * c_p * cell_area * dx] where [L] is the
    5-point Laplacian in which a neighbour outside the grid is replaced by
    the cell itself; on a uniform array the result is 0 in every cell. *)
Theorem conduction_edge_replicated (self : SimplifiedPhysicsSolver)
    (m n : nat) (T : np.array2) :
  shape m n T -> (0 < m)%nat -> (0 < n)%nat ->
  exists Q_cond,
    compute_conduction self T = Ok Q_cond /\
    (forall i j t, np.get T i j = Some t ->
       np.get Q_cond i j =
         Some (thermal_conductivity (params self) / (2330.0 * 700.0) *
               laplacian_5pt T i j t * 2330.0 * 700.0 * cell_area * dx)) /\
    (forall c, T = replicate m (replicate n c) -> all_cells (fun q => q = 0) Q_cond).
Proof.
  intros HT Hm Hn.
  destruct (compute_conduction_cells self m n T HT Hm Hn) as (Q_cond & HQ & HsQ & Hcells).
  exists Q_cond. split; [done|].
  assert (forall i j t, np.get T i j = Some t ->
            np.get Q_cond i j =
              Some (thermal_conductivity (params self) / (2330.0 * 700.0) *
                    laplacian_5pt T i j t * 2330.0 * 700.0 * cell_area * dx)) as Hspec.
  { intros i j t Ht.
    destruct (Hcells i j t Ht) as (tr & tl & tb & ta & Hr & Hl & Hb & Ha & ->).
    unfold laplacian_5pt.
    rewrite (neighbour_right m n T HT i j t tr Ht Hr).
    rewrite (neighbour_left T i j t tl Ht Hl).
    rewrite (neighbour_below m n T HT i j t tb Ht Hb).
    rewrite (neighbour_above T i j t ta Ht Ha). reflexivity. }
  split; [exact Hspec|].
  intros c ->. apply all_cells_get. intros i j q Hq.
  destruct (get_Some_lt _ _ _ _ _ _ HsQ Hq) as [Hi Hj].
  destruct (get_shape _ _ _ i j HT Hi Hj) as [t Ht].
  destruct (Hcells i j t Ht) as (tr & tl & tb & ta & Hr & Hl & Hb & Ha & Hq').
  apply get_replicate in Ht, Hr, Hl, Hb, Ha. subst.
  rewrite Hq in Hq'. injection Hq' as ->. unfold dx, dy. field. repeat split; lra.
Qed.

Lemma conduction_edge_replicated_witness :
  exists Q_cond,
    compute_conduction (init default_parameters) [[300; 301]; [302; 304]] = Ok Q_cond /\
    (forall i j t, np.get [[300; 301]; [302; 304]] i j = Some t ->
       np.get Q_cond i j =
         Some (thermal_conductivity (params (init default_parameters)) / (2330.0 * 700.0) *
               laplacian_5pt [[300; 301]; [302; 304]] i j t *
               2330.0 * 700.0 * cell_area * dx)) /\
    (forall c, [[300; 301]; [302; 304]] = replicate 2 (replicate 2 c) ->
               all_cells (fun q => q = 0) Q_cond).
Proof.
  apply (conduction_edge_replicated (init default_parameters) 2 2).
  - split; [reflexivity|]. repeat constructor.
  - lia.
  - lia.
Defined.

(** C10.  For every parameter object that passes the four range checks
    and whose absorptivity is not negative, as is every absorptivity in the
    documented range 0.85 to 0.98, on a grid with at least one cell: after
    any number of steps every cell of the power grid is at most
    [0.30 * solar_irradiance * absorptivity * 0.01], and so is every cell
    of the [power_field] of the result: the edge factor never exceeds 1. *)
Theorem power_bounded_above (p : SimulationParameters) :
  validated p -> nonempty_grid p -> 0 <= absorptivity p ->
  (forall k, (k <= n_steps p)%nat ->
     exists st,
       time_integration (seq 0 k) (start p) = Ok st /\
       time_integration (seq k (n_steps p - k)) st =
         time_integration (seq 0 (n_steps p)) (start p) /\
       all_cells (fun v => v <= 0.30 * solar_irradiance p * absorptivity p * 0.01)
         (power_generation (solver st))) /\
  (forall w, exists r,
     (run_simulation (init p) w).1 = Ok r /\
     all_cells (fun v => v <= 0.30 * solar_irradiance p * absorptivity p * 0.01)
       (power_field r)).
Proof.
  intros ((Hi & _) & _) Hne Ha.
  apply power_cells_bounded; [exact Hne| |].
  - assert (0 <= solar_irradiance p * absorptivity p) by (apply Rmult_le_pos; lra).
    nra.
  - intros v Hg. apply (generated_bounds p v); [lra|exact Ha|exact Hg].
Qed.

Lemma power_bounded_above_witness :
  (forall k, (k <= n_steps default_parameters)%nat ->
     exists st,
       time_integration (seq 0 k) (start default_parameters) = Ok st /\
       time_integration (seq k (n_steps default_parameters - k)) st =
         time_integration (seq 0 (n_steps default_parameters)) (start default_parameters) /\
       all_cells
         (fun v => v <= 0.30 * solar_irradiance default_parameters *
                        absorptivity default_parameters * 0.01)
         (power_generation (solver st))) /\
  (forall w, exists r,
     (run_simulation (init default_parameters) w).1 = Ok r /\
     all_cells
       (fun v => v <= 0.30 * solar_irradiance default_parameters *
                      absorptivity default_parameters * 0.01)
       (power_field r)).
Proof.
  apply (power_bounded_above default_parameters).
  - unfold validated. simpl. lra.
  - split; simpl; lia.
  - simpl. lra.
Defined.

(** * Further properties of the code *)

Lemma length_pad_edge {A : Type} (l k : list A) :
  np.pad_edge l = Some k -> length k = S (S (length l)).
Proof.
  intros H. apply pad_edge_inv in H as (a & z & _ & _ & ->).
  cbn [length]. rewrite length_app. cbn [length]. lia.
Qed.

(** X16.  Padding a non-empty array by one replicated cell on each side
    gives an array with two more rows and two more columns; its interior
    slice [T_pad[1:-1, 1:-1]] is the array itself, and the four shifted
    slices that [compute_conduction] subtracts have the shape of the
    array. *)
Theorem pad_then_slice (m n : nat) (T : np.array2) :
  shape m n T -> (0 < m)%nat -> (0 < n)%nat ->
  exists T_pad,
    np.pad T = Ok T_pad /\
    shape (S (S m)) (S (S n)) T_pad /\
    np.slice2 (np.between 1 1) (np.between 1 1) T_pad = T /\
    shape m n (np.slice2 (np.between 1 1) (np.from 2) T_pad) /\
    shape m n (np.slice2 (np.between 1 1) (np.upto_last 2) T_pad) /\
    shape m n (np.slice2 (np.from 2) (np.between 1 1) T_pad) /\
    shape m n (np.slice2 (np.upto_last 2) (np.between 1 1) T_pad).
Proof.
  intros HT Hm Hn.
  destruct (pad_Ok m n T HT Hm Hn) as (rows & T_pad & Hrows & Hpad & HOk & Hlen).
  exists T_pad. split; [exact HOk|]. split.
  - split; [rewrite (length_pad_edge _ _ Hpad), Hlen; reflexivity|].
    eapply pad_edge_Forall; [exact Hpad|].
    eapply Forall_impl; [apply (rows_padded m n T rows HT Hrows)|].
    intros r' (r & Hr & Hp). cbn beta. by rewrite (length_pad_edge _ _ Hp), Hr.
  - split; [exact (slice_centre _ _ _ Hrows Hpad)|].
    split; [exact (shape_slice_right m n T rows T_pad HT Hrows Hpad)|].
    split; [exact (shape_slice_left m n T rows T_pad HT Hrows Hpad)|].
    split; [exact (shape_slice_below m n T rows T_pad HT Hrows Hpad)|].
    exact (shape_slice_above m n T rows T_pad HT Hrows Hpad).
Qed.

Lemma pad_then_slice_witness :
  exists T_pad,
    np.pad [[300; 301]; [302; 304]] = Ok T_pad /\
    shape (S (S 2%nat)) (S (S 2%nat)) T_pad /\
    np.slice2 (np.between 1 1) (np.between 1 1) T_pad = [[300; 301]; [302; 304]] /\
    shape 2%nat 2%nat (np.slice2 (np.between 1 1) (np.from 2) T_pad) /\
    shape 2%nat 2%nat (np.slice2 (np.between 1 1) (np.upto_last 2) T_pad) /\
    shape 2%nat 2%nat (np.slice2 (np.from 2) (np.between 1 1) T_pad) /\
    shape 2%nat 2%nat (np.slice2 (np.upto_last 2) (np.between 1 1) T_pad).
Proof.
  apply (pad_then_slice 2 2 [[300; 301]; [302; 304]]).
  - split; [reflexivity|repeat constructor].
  - lia.
  - lia.
Defined.












Section padded_totals.
Context (T rows T_pad : np.array2).
Context (Hrows : mapM np.pad_edge T = Some rows).
Context (Hpad : np.pad_edge rows = Some T_pad).


End padded_totals.



Lemma time_step_history (st st' : LoopState) (step : nat) :
  time_step st step = Ok st' ->
  T_history st' =
    (if (step mod 10 =? 0)%nat
     then T_history st ++ [temperature (solver st')] else T_history st) /\
  P_history st' =
    (if (step mod 10 =? 0)%nat
     then P_history st ++ [power_generation (solver st')] else P_history st).
Proof.
  unfold time_step. destruct (compute_conduction _ _) as [Q_cond|e]; [|discriminate].
  cbn [bind]. destruct (step mod 10 =? 0)%nat; intros H; injection H as <-; done.
Qed.

Lemma snapshots_div (k : nat) :
  ((S k + 9) / 10 = (k + 9) / 10 + (if (k mod 10 =? 0) then 1 else 0))%nat.
Proof.
  pose proof (Nat.div_mod_eq k 10) as Hk.
  pose proof (Nat.mod_upper_bound k 10) as Hr.
  assert (forall x q r, (x = 10 * q + r -> r < 10 -> x / 10 = q)%nat) as Hd.
  { intros x q r -> Hrange. symmetry. apply (Nat.div_unique _ 10 q r); lia. }
  destruct (k mod 10 =? 0)%nat eqn:E.
  - apply Nat.eqb_eq in E.
    rewrite (Hd (S k + 9)%nat (k / 10 + 1)%nat 0%nat) by lia.
    rewrite (Hd (k + 9)%nat (k / 10)%nat 9%nat) by lia. lia.
  - apply Nat.eqb_neq in E.
    rewrite (Hd (S k + 9)%nat (k / 10 + 1)%nat (k mod 10)) by lia.
    rewrite (Hd (k + 9)%nat (k / 10 + 1)%nat (k mod 10 - 1)%nat) by lia. lia.
Qed.

(** X2.  After [k] steps of the loop both history lists hold one snapshot
    for each of the steps 0, 10, 20, ... below [k], that is [ceil(k / 10)]
    of them; every temperature snapshot has the shape of the grid and lies
    in [200, 450], every power snapshot has the shape of the grid. *)
Theorem history_snapshots (p : SimulationParameters) (k : nat) :
  nonempty_grid p ->
  exists st,
    time_integration (seq 0 k) (start p) = Ok st /\
    length (T_history st) = ((k + 9) / 10)%nat /\
    length (P_history st) = ((k + 9) / 10)%nat /\
    Forall (fun T => shape (ny p) (nx p) T /\
                     all_cells (fun t => 200 <= t <= 450) T) (T_history st) /\
    Forall (shape (ny p) (nx p)) (P_history st).
Proof.
  intros Hne. induction k as [|k IH].
  - exists (start p). repeat split; try reflexivity; constructor.
  - destruct IH as (st & Hst & HlT & HlP & HT & HP).
    destruct (time_integration_shaped p (seq 0 k) (start p) Hne (shaped_start p))
      as (st0 & Hst0 & Hs).
    rewrite Hst in Hst0. injection Hst0 as <-.
    destruct (time_step_shaped p st k Hne Hs) as (st' & Hstep & (_ & HsT & HsP) & Hsafe & _).
    destruct (time_step_history st st' k Hstep) as [ET EP].
    exists st'. rewrite seq_S, time_integration_app, Hst. cbn [bind time_integration].
    rewrite Nat.add_0_l, Hstep. split; [reflexivity|].
    rewrite ET, EP, snapshots_div.
    destruct (k mod 10 =? 0)%nat.
    + rewrite !length_app, HlT, HlP. cbn [length].
      split; [lia|]. split; [lia|]. split.
      * apply Forall_app. split; [exact HT|]. constructor; [|constructor].
        split; [exact HsT|exact Hsafe].
      * apply Forall_app. split; [exact HP|]. constructor; [exact HsP|constructor].
    + split; [lia|]. split; [lia|]. split; [exact HT|exact HP].
Qed.

Lemma history_snapshots_witness :
  exists st,
    time_integration (seq 0 25%nat) (start default_parameters) = Ok st /\
    length (T_history st) = ((25%nat + 9) / 10)%nat /\
    length (P_history st) = ((25%nat + 9) / 10)%nat /\
    Forall (fun T => shape (ny default_parameters) (nx default_parameters) T /\
                     all_cells (fun t => 200 <= t <= 450) T) (T_history st) /\
    Forall (shape (ny default_parameters) (nx default_parameters)) (P_history st).
Proof.
  apply (history_snapshots default_parameters 25).
  split; simpl; lia.
Defined.

Lemma sqrt_10_lt_4 : sqrt 10 < 4.
Proof.
  rewrite <- (sqrt_square 4) by lra. apply sqrt_lt_1; lra.
Qed.

(** X3.  For a wind speed in [0, 10] the floor of [max(5.0, _)] is never
    the larger argument: the coefficient is [10.45 - v + 10 * sqrt v] and
    lies in [10.45, 35.45].  The convective loss of a cell is then
    non-negative exactly when the cell is not colder than the ambient air,
    and zero exactly at ambient temperature. *)
Theorem convection_floor_inactive (self : SimplifiedPhysicsSolver) (T : np.array2)
    (i j : nat) (t : R) :
  0 <= wind_speed (params self) <= 10 ->
  np.get T i j = Some t ->
  h_conv self =
    10.45 - wind_speed (params self) + 10.0 * sqrt (wind_speed (params self)) /\
  10.45 <= h_conv self <= 35.45 /\
  exists q,
    np.get (compute_convective_cooling self T) i j = Some q /\
    (0 <= q <-> ambient_temperature (params self) <= t) /\
    (q = 0 <-> t = ambient_temperature (params self)).
Proof.
  intros Hv Ht.
  pose proof (h_conv_nonnegative_wind self (proj1 Hv)) as Hformula.
  set (v := wind_speed (params self)) in *.
  assert (0 <= sqrt v) as Hs0 by apply sqrt_pos.
  assert (sqrt v * sqrt v = v) as Hsq by (apply sqrt_sqrt; lra).
  assert (sqrt v < 4) as Hs4.
  { eapply Rle_lt_trans; [|apply sqrt_10_lt_4]. apply sqrt_le_1; lra. }
  assert (h_conv self = 10.45 - v + 10.0 * sqrt v) as Hh.
  { rewrite Hformula. apply Rmax_right. nra. }
  assert (10.45 <= h_conv self <= 35.45) as Hb.
  { rewrite Hh. split; nra. }
  split; [exact Hh|]. split; [exact Hb|].
  exists (h_conv self * cell_area * (t - ambient_temperature (params self))).
  split; [unfold compute_convective_cooling; by rewrite get_map1, Ht|].
  unfold cell_area.
  generalize dependent (h_conv self). intros h _ Hh.
  generalize (ambient_temperature (params self)). intros a.
  split; split; intros H; nra.
Qed.

Lemma convection_floor_inactive_witness :
  h_conv (init default_parameters) =
    10.45 - wind_speed (params (init default_parameters)) + 10.0 * sqrt (wind_speed (params (init default_parameters))) /\
  10.45 <= h_conv (init default_parameters) <= 35.45 /\
  exists q,
    np.get (compute_convective_cooling (init default_parameters) [[300; 310]]) 0%nat 1%nat = Some q /\
    (0 <= q <-> ambient_temperature (params (init default_parameters)) <= 310) /\
    (q = 0 <-> 310 = ambient_temperature (params (init default_parameters))).
Proof.
  apply (convection_floor_inactive (init default_parameters) [[300; 310]] 0 1 310).
  - simpl. lra.
  - reflexivity.
Defined.

(** X4.  With a non-negative emissivity the radiative loss grows with the
    temperature of the cell (for temperatures [>= 0]); it is zero for a
    cell at the sky temperature [ambient_temperature - 10] and
    non-negative for every warmer cell. *)
Theorem radiative_loss_monotone (self : SimplifiedPhysicsSolver) (T : np.array2)
    (i1 j1 i2 j2 : nat) (t1 t2 : R) :
  0 <= emissivity (params self) ->
  np.get T i1 j1 = Some t1 -> np.get T i2 j2 = Some t2 ->
  0 <= t1 <= t2 ->
  exists q1 q2,
    np.get (compute_radiative_cooling self T) i1 j1 = Some q1 /\
    np.get (compute_radiative_cooling self T) i2 j2 = Some q2 /\
    q1 <= q2 /\
    (t1 = ambient_temperature (params self) - 10.0 -> q1 = 0 /\ 0 <= q2).
Proof.
  intros He H1 H2 Ht.
  unfold compute_radiative_cooling. rewrite !get_map1, H1, H2. cbn [fmap option_fmap option_map].
  eexists _, _. split; [reflexivity|]. split; [reflexivity|].
  assert (t1 ^ 4 <= t2 ^ 4) as Hpow by (apply pow_incr; lra).
  assert (0 <= emissivity (params self) * STEFAN_BOLTZMANN * cell_area) as Hc.
  { unfold STEFAN_BOLTZMANN, cell_area.
    apply Rmult_le_pos; [apply Rmult_le_pos|]; lra. }
  generalize dependent (emissivity (params self) * STEFAN_BOLTZMANN * cell_area).
  intros c Hc.
  assert (c * (t1 ^ 4 - (ambient_temperature (params self) - 10.0) ^ 4) <=
          c * (t2 ^ 4 - (ambient_temperature (params self) - 10.0) ^ 4)) as Hle.
  { apply Rmult_le_compat_l; lra. }
  split; [exact Hle|].
  intros E. rewrite <- E in *. split; [ring|].
  apply Rmult_le_pos; lra.
Qed.

Lemma radiative_loss_monotone_witness :
  exists q1 q2,
    np.get (compute_radiative_cooling (init default_parameters) [[300; 310]]) 0%nat 0%nat = Some q1 /\
    np.get (compute_radiative_cooling (init default_parameters) [[300; 310]]) 0%nat 1%nat = Some q2 /\
    q1 <= q2 /\
    (300 = ambient_temperature (params (init default_parameters)) - 10.0 -> q1 = 0 /\ 0 <= q2).
Proof.
  apply (radiative_loss_monotone (init default_parameters) [[300; 310]] 0 0 0 1 300 310).
  - simpl. lra.
  - reflexivity.
  - reflexivity.
  - lra.
Defined.

(** X5.  The absorbed solar power has the shape of the grid, and when
    [solar_irradiance * absorptivity >= 0] every cell lies between 0.6
    times and once the base absorption
    [solar_irradiance * absorptivity * 0.01]: the edge factor never removes
    more than 40 percent. *)
Theorem solar_absorption_bounds (self : SimplifiedPhysicsSolver) :
  0 <= solar_irradiance (params self) * absorptivity (params self) ->
  shape (ny (params self)) (nx (params self)) (compute_solar_absorption self) /\
  all_cells
    (fun q => 0.6 * (solar_irradiance (params self) * absorptivity (params self) * 0.01) <= q /\
              q <= solar_irradiance (params self) * absorptivity (params self) * 0.01)
    (compute_solar_absorption self).
Proof.
  intros Hq. split; [apply shape_solar_absorption|].
  eapply all_cells_impl; [|apply solar_absorption_cells].
  intros q (e & He & ->). unfold base_absorption, cell_area.
  generalize dependent (solar_irradiance (params self) * absorptivity (params self)).
  intros Q HQ. split; nra.
Qed.

Lemma solar_absorption_bounds_witness :
  shape (ny (params (init default_parameters))) (nx (params (init default_parameters))) (compute_solar_absorption (init default_parameters)) /\
  all_cells
    (fun q => 0.6 * (solar_irradiance (params (init default_parameters)) * absorptivity (params (init default_parameters)) * 0.01) <= q /\
              q <= solar_irradiance (params (init default_parameters)) * absorptivity (params (init default_parameters)) * 0.01)
    (compute_solar_absorption (init default_parameters)).
Proof.
  apply (solar_absorption_bounds (init default_parameters)).
  simpl. lra.
Defined.








(** Every field of the result, from the state the loop ends in. *)
Lemma run_simulation_fields (p : SimulationParameters) (w : World) :
  nonempty_grid p ->
  exists st r v vs,
    time_integration (seq 0 (n_steps p)) (start p) = Ok st /\ shaped p st /\
    np.flat (temperature (solver st)) = v :: vs /\
    (run_simulation (init p) w).1 = Ok r /\
    temperature_field r = temperature (solver st) /\
    power_field r = power_generation (solver st) /\
    temperature_mean r = np.mean (temperature (solver st)) /\
    temperature_max r = foldl Rmax v vs /\
    temperature_min r = foldl Rmin v vs /\
    power_total r = np.sum (power_generation (solver st)) /\
    power_mean r = np.mean (power_generation (solver st)) /\
    efficiency_avg r =
      np.mean (np.map2 Rdiv (power_generation (solver st))
                 (np.map1 (fun q => q + 1e-10) (compute_solar_absorption (solver st)))) /\
    runtime_ms r = (clock w (S (reads w)) - clock w (reads w)) * 1000.
Proof.
  intros Hne.
  destruct (time_integration_shaped p (seq 0 (n_steps p)) (start p) Hne (shaped_start p))
    as (st & Hst & Hs).
  pose proof Hs as (_ & HT & _). destruct Hne as [Hnx Hny].
  destruct (flat_nonempty _ _ _ HT Hny Hnx) as (v & vs & Hflat).
  unfold run_simulation. cbn [now emit params init n_steps].
  unfold start in Hst. cbn [init] in Hst. rewrite Hst.
  unfold np.max, np.min. rewrite Hflat.
  eexists st, _, v, vs. split; [done|]. split; [done|]. split; [done|].
  split; [reflexivity|]. cbn. repeat split; reflexivity.
Qed.






Lemma foldr_Rplus_bounds (lo hi : R) (l : list R) :
  Forall (fun u => lo <= u <= hi) l ->
  lo * INR (length l) <= foldr Rplus 0 l <= hi * INR (length l).
Proof.
  induction 1 as [|u l Hu _ IH].
  - simpl. lra.
  - cbn [foldr length]. rewrite S_INR. lra.
Qed.

Lemma mean_bounds (lo hi : R) (a : np.array2) :
  (0 < np.size a)%nat -> all_cells (fun u => lo <= u <= hi) a ->
  lo <= np.mean a <= hi.
Proof.
  intros Hsize Ha. unfold np.mean, np.sum, np.size in *.
  assert (Forall (fun u => lo <= u <= hi) (np.flat a)) as Hflat.
  { unfold np.flat. apply Forall_concat. exact Ha. }
  pose proof (foldr_Rplus_bounds lo hi _ Hflat) as [H1 H2].
  assert (0 < INR (length (np.flat a))) as Hpos by (apply lt_0_INR; exact Hsize).
  split.
  - apply (Rmult_le_reg_r (INR (length (np.flat a)))); [exact Hpos|].
    unfold Rdiv. rewrite Rmult_assoc, Rinv_l by lra. lra.
  - apply (Rmult_le_reg_r (INR (length (np.flat a)))); [exact Hpos|].
    unfold Rdiv. rewrite Rmult_assoc, Rinv_l by lra. lra.
Qed.

Lemma all_cells_flat (P : R -> Prop) (a : np.array2) :
  all_cells P a <-> Forall P (np.flat a).
Proof. unfold all_cells, np.flat. symmetry. apply Forall_concat. Qed.



Lemma get_map2_inv (f : R -> R -> R) (a b : np.array2) (i j : nat) (w : R) :
  np.get (np.map2 f a b) i j = Some w ->
  exists u v, np.get a i j = Some u /\ np.get b i j = Some v /\ w = f u v.
Proof.
  unfold np.get, np.map2. intros H.
  destruct (zip_with (zip_with f) a b !! i) as [row|] eqn:Hrow; [|done].
  apply lookup_zip_with_Some in Hrow as (ra & rb & -> & Ha & Hb).
  apply lookup_zip_with_Some in H as (u & v & -> & Hu & Hv).
  exists u, v. by rewrite Ha, Hb.
Qed.

Lemma get_map1_inv (f : R -> R) (a : np.array2) (i j : nat) (w : R) :
  np.get (np.map1 f a) i j = Some w ->
  exists u, np.get a i j = Some u /\ w = f u.
Proof.
  rewrite get_map1. destruct (np.get a i j) as [u|]; [|done].
  intros H. injection H as <-. eauto.
Qed.

Lemma foldr_Rplus_bounds_strict (lo hi : R) (l : list R) :
  l <> [] -> Forall (fun u => lo < u < hi) l ->
  lo * INR (length l) < foldr Rplus 0 l < hi * INR (length l).
Proof.
  intros Hne H. induction H as [|u l Hu Hl IH]; [done|].
  cbn [foldr length]. rewrite S_INR.
  destruct l as [|u' l'].
  - simpl. lra.
  - assert (u' :: l' <> []) as Hne' by done. specialize (IH Hne'). lra.
Qed.

Lemma mean_bounds_strict (lo hi : R) (a : np.array2) :
  (0 < np.size a)%nat -> all_cells (fun u => lo < u < hi) a ->
  lo < np.mean a < hi.
Proof.
  intros Hsize Ha. unfold np.mean, np.sum, np.size in *.
  apply all_cells_flat in Ha.
  assert (np.flat a <> []) as Hne by (intros E; rewrite E in Hsize; simpl in Hsize; lia).
  pose proof (foldr_Rplus_bounds_strict lo hi _ Hne Ha) as [H1 H2].
  assert (0 < INR (length (np.flat a))) as Hpos by (apply lt_0_INR; exact Hsize).
  split.
  - apply (Rmult_lt_reg_r (INR (length (np.flat a)))); [exact Hpos|].
    unfold Rdiv. rewrite Rmult_assoc, Rinv_l by lra. lra.
  - apply (Rmult_lt_reg_r (INR (length (np.flat a)))); [exact Hpos|].
    unfold Rdiv. rewrite Rmult_assoc, Rinv_l by lra. lra.
Qed.

Lemma size_shape (m n : nat) (a : np.array2) :
  shape m n a -> (0 < m)%nat -> (0 < n)%nat -> (0 < np.size a)%nat.
Proof.
  intros Hs Hm Hn. destruct (flat_nonempty _ _ _ Hs Hm Hn) as (v & vs & E).
  unfold np.size. rewrite E. simpl. lia.
Qed.

Lemma efficiency_ratio_bounds (eta q : R) :
  0.05 <= eta <= 0.30 -> 0 < q -> 0 < eta * q / (q + 1e-10) < 0.30.
Proof.
  intros Heta Hq.
  assert (0 < q + 1e-10) as Hd by lra.
  assert (0 < / (q + 1e-10)) as Hinv by (by apply Rinv_0_lt_compat).
  unfold Rdiv. split.
  - apply Rmult_lt_0_compat; [apply Rmult_lt_0_compat; lra|exact Hinv].
  - apply (Rmult_lt_reg_r (q + 1e-10)); [exact Hd|].
    rewrite Rmult_assoc, Rinv_l by lra. nra.
Qed.

(** X8.  For validated parameters with a positive absorptivity, on a
    grid with at least one cell: [efficiency_avg] is 0 when no step is run
    (the power grid is still zero), and lies strictly between 0 and 0.30
    after at least one step. *)
Theorem efficiency_avg_bounds (p : SimulationParameters) (w : World) :
  validated p -> nonempty_grid p -> 0 < absorptivity p ->
  exists r,
    (run_simulation (init p) w).1 = Ok r /\
    (n_steps p = 0%nat -> efficiency_avg r = 0) /\
    ((0 < n_steps p)%nat -> 0 < efficiency_avg r < 0.30).
Proof.
  intros Hv Hne Ha.
  destruct (run_simulation_fields p w Hne)
    as (st & r & v & vs & Hst & Hs & _ & Hr & _ & _ & _ & _ & _ & _ & _ & Heff & _).
  exists r. split; [exact Hr|]. rewrite Heff. clear Heff Hr.
  destruct Hs as (Hp & HsT & HsP).
  assert (shape (ny p) (nx p)
            (np.map2 Rdiv (power_generation (solver st))
               (np.map1 (fun q => q + 1e-10) (compute_solar_absorption (solver st)))))
    as Hshape.
  { apply shape_map2; [exact HsP|]. apply shape_map1.
    rewrite <- Hp. apply shape_solar_absorption. }
  pose proof Hne as [Hnx Hny].
  pose proof (size_shape _ _ _ Hshape Hny Hnx) as Hsize.
  assert (0 < base_absorption p) as HQ.
  { destruct Hv as ((Hi & _) & _). unfold base_absorption, cell_area.
    apply Rmult_lt_0_compat; [apply Rmult_lt_0_compat|]; lra. }
  split.
  - intros Hn. rewrite Hn in Hst. injection Hst as <-.
    cbn [start solver init power_generation] in *.
    assert (0 <= np.mean
              (np.map2 Rdiv (np.zeros (ny p) (nx p))
                 (np.map1 (fun q => q + 1e-10)
                    (compute_solar_absorption (init p)))) <= 0) as H0; [|lra].
    apply mean_bounds; [exact Hsize|].
    apply all_cells_get. intros i j u Hu.
    apply get_map2_inv in Hu as (z & d & Hz & _ & ->).
    apply get_replicate in Hz. subst z. unfold Rdiv. lra.
  - intros Hn. destruct (n_steps p) as [|n] eqn:En; [lia|].
    destruct (time_integration_power p n (start p) Hne (shaped_start p))
      as (st1 & st' & Hst' & (Hp1 & _) & _ & HP).
    rewrite Hst in Hst'. injection Hst' as <-. clear Hst.
    apply mean_bounds_strict; [exact Hsize|].
    apply all_cells_get. intros i j u Hu.
    apply get_map2_inv in Hu as (pw & d & Hpw & Hd & ->).
    apply get_map1_inv in Hd as (q & Hq & ->).
    rewrite HP in Hpw. unfold compute_electrical_generation in Hpw.
    apply get_map2_inv in Hpw as (eta & q' & Heta & Hq' & ->).
    apply get_map1_inv in Heta as (t & _ & ->).
    rewrite (solar_absorption_params (solver st1) (solver st)) in Hq' by congruence.
    rewrite Hq in Hq'. injection Hq' as <-.
    pose proof (get_all_cells _ _ _ _ _ (solar_absorption_cells (solver st)) Hq)
      as (e & He & ->).
    rewrite Hp. apply efficiency_ratio_bounds; [apply eta_T_bounds|].
    apply Rmult_lt_0_compat; lra.
Qed.

Lemma efficiency_avg_bounds_witness :
  exists r,
    (run_simulation (init default_parameters) idle_world).1 = Ok r /\
    (n_steps default_parameters = 0%nat -> efficiency_avg r = 0) /\
    ((0 < n_steps default_parameters)%nat -> 0 < efficiency_avg r < 0.30).
Proof.
  apply (efficiency_avg_bounds default_parameters idle_world).
  - unfold validated. simpl. lra.
  - split; simpl; lia.
  - simpl. lra.
Defined.


(** The world after a run on a grid with at least one cell. *)
Lemma run_simulation_world (p : SimulationParameters) (w : World) :
  nonempty_grid p ->
  exists r,
    (run_simulation (init p) w).1 = Ok r /\
    runtime_ms r = (clock w (S (reads w)) - clock w (reads w)) * 1000 /\
    clock (run_simulation (init p) w).2 = clock w /\
    reads (run_simulation (init p) w).2 = S (S (reads w)) /\
    log (run_simulation (init p) w).2 =
      log w ++ [InfoStarting p; InfoComplete (runtime_ms r)].
Proof.
  intros Hne.
  destruct (time_integration_shaped p (seq 0 (n_steps p)) (start p) Hne (shaped_start p))
    as (st & Hst & Hs).
  pose proof Hs as (_ & HT & _). destruct Hne as [Hnx Hny].
  destruct (flat_nonempty _ _ _ HT Hny Hnx) as (v & vs & Hflat).
  unfold run_simulation. cbn [now emit params init n_steps].
  unfold start in Hst. cbn [init] in Hst. rewrite Hst.
  unfold np.max, np.min. rewrite Hflat.
  eexists. split; [reflexivity|]. cbn.
  split; [reflexivity|]. split; [reflexivity|]. split; [reflexivity|].
  by rewrite <- app_assoc.
Qed.

(** X10.  A run on a grid with at least one cell reads the clock exactly
    twice, [runtime_ms] is a thousand times the difference of the two
    readings (so non-negative when the clock does not go back), and the log
    gains exactly two records: the start, with the parameters, and the
    completion, with the run time. *)
Theorem run_reads_clock_twice (p : SimulationParameters) (w : World) :
  nonempty_grid p ->
  exists r,
    (run_simulation (init p) w).1 = Ok r /\
    runtime_ms r = (clock w (S (reads w)) - clock w (reads w)) * 1000 /\
    (clock w (reads w) <= clock w (S (reads w)) -> 0 <= runtime_ms r) /\
    clock (run_simulation (init p) w).2 = clock w /\
    reads (run_simulation (init p) w).2 = S (S (reads w)) /\
    log (run_simulation (init p) w).2 =
      log w ++ [InfoStarting p; InfoComplete (runtime_ms r)].
Proof.
  intros Hne.
  destruct (run_simulation_world p w Hne) as (r & Hr & Hrt & Hc & Hn & Hl).
  exists r. split; [exact Hr|]. split; [exact Hrt|].
  split; [rewrite Hrt; intros; nra|]. split; [exact Hc|]. split; [exact Hn|exact Hl].
Qed.

Lemma run_reads_clock_twice_witness :
  exists r,
    (run_simulation (init default_parameters) idle_world).1 = Ok r /\
    runtime_ms r = (clock idle_world (S (reads idle_world)) - clock idle_world (reads idle_world)) * 1000 /\
    (clock idle_world (reads idle_world) <= clock idle_world (S (reads idle_world)) -> 0 <= runtime_ms r) /\
    clock (run_simulation (init default_parameters) idle_world).2 = clock idle_world /\
    reads (run_simulation (init default_parameters) idle_world).2 = S (S (reads idle_world)) /\
    log (run_simulation (init default_parameters) idle_world).2 =
      log idle_world ++ [InfoStarting default_parameters; InfoComplete (runtime_ms r)].
Proof.
  apply (run_reads_clock_twice default_parameters idle_world).
  split; simpl; lia.
Defined.

Lemma pad_empty (m n : nat) (T : np.array2) :
  shape m n T -> (m = 0 \/ n = 0)%nat -> exists e, np.pad T = Raise e.
Proof.
  intros [Hl Hr] Hmn. unfold np.pad.
  destruct (mapM np.pad_edge T) as [rows|] eqn:E; [|eauto].
  destruct T as [|r T].
  - cbn in E. injection E as <-. cbn. eauto.
  - exfalso. apply mapM_Some_1 in E.
    apply Forall2_cons_inv_l in E as (r' & rows' & Hp & _ & _).
    apply Forall_cons in Hr as [Hn _].
    destruct Hmn as [Hm|Hn0]; [simpl in Hl; lia|].
    destruct r; [discriminate Hp|simpl in Hn; lia].
Qed.

Lemma flat_empty (m n : nat) (a : np.array2) :
  shape m n a -> (m = 0 \/ n = 0)%nat -> np.flat a = [].
Proof.
  intros [Hl Hr] [Hm|Hn].
  - rewrite Hm in Hl. apply length_zero_iff_nil in Hl. by subst a.
  - rewrite Hn in Hr. unfold np.flat. clear Hl.
    induction Hr as [|r a Hr _ IH]; [reflexivity|].
    apply length_zero_iff_nil in Hr. subst r. exact IH.
Qed.

(** X11.  On a grid without cells ([nx = 0] or [ny = 0])
    [compute_conduction] raises on the initial temperature array, and
    [run_simulation] raises whatever the number of steps, after it logged
    its start and before it logs a completion. *)
Theorem empty_grid_raises (p : SimulationParameters) (w : World) :
  (nx p = 0 \/ ny p = 0)%nat ->
  (forall self, exists e, compute_conduction self (temperature (init p)) = Raise e) /\
  exists e,
    (run_simulation (init p) w).1 = Raise e /\
    log (run_simulation (init p) w).2 = log w ++ [InfoStarting p].
Proof.
  intros Hempty.
  assert (ny p = 0 \/ nx p = 0)%nat as Hmn by tauto.
  pose proof (shaped_start p) as (_ & HT & _). cbn [start solver] in HT.
  destruct (pad_empty _ _ _ HT Hmn) as [e_pad Hpad].
  pose proof (flat_empty _ _ _ HT Hmn) as Hflat.
  split.
  - intros self. exists e_pad. unfold compute_conduction. by rewrite Hpad.
  - unfold run_simulation. cbn [now emit].
    change (params (init p)) with p.
    destruct (n_steps p) as [|n].
    + cbn [seq time_integration solver].
      unfold np.max. rewrite Hflat.
      eexists. split; reflexivity.
    + assert (time_integration (seq 0 (S n))
                {| solver := init p; T_history := []; P_history := [] |} =
              Raise e_pad) as Hti.
      { cbn [seq time_integration]. unfold time_step.
        cbn [solver temperature params]. unfold compute_conduction.
        rewrite Hpad. reflexivity. }
      rewrite Hti. eexists. split; reflexivity.
Qed.

Lemma empty_grid_raises_witness :
  (forall self, exists e, compute_conduction self (temperature (init (with_grid 0 25 default_parameters))) = Raise e) /\
  exists e,
    (run_simulation (init (with_grid 0 25 default_parameters)) idle_world).1 = Raise e /\
    log (run_simulation (init (with_grid 0 25 default_parameters)) idle_world).2 = log idle_world ++ [InfoStarting (with_grid 0 25 default_parameters)].
Proof.
  apply (empty_grid_raises (with_grid 0 25 default_parameters) idle_world).
  left. reflexivity.
Defined.




(** X13.  For a configured efficiency in [0.05, 0.30]: the local
    efficiency equals the configured one at the reference temperature
    298.15 K, never grows with the temperature, always lies in [0.05, 0.30];
    below the reference only the upper clip can act, above it only the
    lower one. *)
Theorem efficiency_derating (self : SimplifiedPhysicsSolver) (t1 t2 : R) :
  0.05 <= cell_efficiency (params self) <= 0.30 -> t1 <= t2 ->
  eta_T self 298.15 = cell_efficiency (params self) /\
  eta_T self t2 <= eta_T self t1 /\
  0.05 <= eta_T self t1 <= 0.30 /\
  (t1 <= 298.15 ->
   eta_T self t1 = Rmin 0.30 (cell_efficiency (params self) * (1.0 - 0.004 * (t1 - 298.15)))) /\
  (298.15 <= t1 ->
   eta_T self t1 = Rmax (cell_efficiency (params self) * (1.0 - 0.004 * (t1 - 298.15))) 0.05).
Proof.
  intros He Ht. unfold eta_T, np.clip1.
  set (e := cell_efficiency (params self)) in *.
  split; [|split; [|split; [|split]]].
  - replace (e * (1.0 - 0.004 * (298.15 - 298.15))) with e by lra.
    rewrite Rmax_left by lra. apply Rmin_right. lra.
  - apply Rle_min_compat_l, Rle_max_compat_r. nra.
  - split; [apply Rmin_glb; [lra|apply Rmax_r]|apply Rmin_l].
  - intros H. rewrite Rmax_left by nra. reflexivity.
  - intros H. apply Rmin_right.
    apply Rmax_lub; [nra|lra].
Qed.

Lemma efficiency_derating_witness :
  eta_T (init default_parameters) 298.15 = cell_efficiency (params (init default_parameters)) /\
  eta_T (init default_parameters) 350 <= eta_T (init default_parameters) 300 /\
  0.05 <= eta_T (init default_parameters) 300 <= 0.30 /\
  (300 <= 298.15 ->
   eta_T (init default_parameters) 300 = Rmin 0.30 (cell_efficiency (params (init default_parameters)) * (1.0 - 0.004 * (300 - 298.15)))) /\
  (298.15 <= 300 ->
   eta_T (init default_parameters) 300 = Rmax (cell_efficiency (params (init default_parameters)) * (1.0 - 0.004 * (300 - 298.15))) 0.05).
Proof.
  apply (efficiency_derating (init default_parameters) 300 350).
  - simpl. lra.
  - lra.
Defined.

Lemma mod10_range (x : R) : 0 <= dashboard.mod10 x < 10.
Proof.
  unfold dashboard.mod10. destruct (base_Int_part (x / 10)) as [H1 H2]. lra.
Qed.

Lemma update_history (self : dashboard.SimulationState) (t : R) :
  (length (dashboard.fidelity_history self) <= 100)%nat ->
  length (dashboard.fidelity_history (dashboard.update self t).2) =
    (S (length (dashboard.fidelity_history self)) `min` 100)%nat /\
  dashboard.fidelity_history (dashboard.update self t).2 `suffix_of`
    dashboard.fidelity_history self ++ [(dashboard.update self t).1] /\
  last (dashboard.fidelity_history (dashboard.update self t).2) =
    Some (dashboard.update self t).1.
Proof.
  intros Hlen. unfold dashboard.update. cbn [fst snd dashboard.fidelity_history].
  set (f := if bool_decide _ then _ else _). clearbody f.
  rewrite length_app. cbn [length].
  destruct (100 <? _)%nat eqn:E.
  - apply Nat.ltb_lt in E. cbn [length] in E. rewrite length_drop, length_app. cbn [length].
    split; [lia|]. split; [apply suffix_drop|].
    rewrite last_lookup, length_drop, length_app, lookup_drop. cbn [length].
    rewrite lookup_app_r by lia.
    replace (_ + _ - _)%nat with 0%nat by lia. reflexivity.
  - apply Nat.ltb_ge in E. cbn [length] in E. rewrite length_app. cbn [length]. split; [lia|]. split; [done|]. apply last_snoc.
Qed.

(** X14.  [SimulationState.update] on a history of at most 100 entries:
    the fidelity it returns is 0, 1 or 2 (2 exactly when [time % 10 < 3],
    0 exactly when [time % 10 >= 7]); it becomes the last entry of the
    history, which keeps its most recent entries, at most 100; [last_update]
    becomes the clock reading and [time] grows by the time elapsed since the
    previous update. *)
Theorem update_step (self : dashboard.SimulationState) (current_time : R) :
  (length (dashboard.fidelity_history self) <= 100)%nat ->
  ((dashboard.update self current_time).1 <= 2)%nat /\
  ((dashboard.update self current_time).1 = 2%nat <->
   dashboard.mod10 (dashboard.time (dashboard.update self current_time).2) < 3) /\
  ((dashboard.update self current_time).1 = 0%nat <->
   7 <= dashboard.mod10 (dashboard.time (dashboard.update self current_time).2)) /\
  length (dashboard.fidelity_history (dashboard.update self current_time).2) =
    (S (length (dashboard.fidelity_history self)) `min` 100)%nat /\
  dashboard.fidelity_history (dashboard.update self current_time).2 `suffix_of`
    dashboard.fidelity_history self ++ [(dashboard.update self current_time).1] /\
  last (dashboard.fidelity_history (dashboard.update self current_time).2) =
    Some (dashboard.update self current_time).1 /\
  dashboard.last_update (dashboard.update self current_time).2 = current_time /\
  dashboard.time (dashboard.update self current_time).2 =
    dashboard.time self + (current_time - dashboard.last_update self).
Proof.
  intros Hlen.
  destruct (update_history self current_time Hlen) as (H1 & H2 & H3).
  repeat split; try assumption; try reflexivity.
  - unfold dashboard.update. cbn [fst]. repeat case_bool_decide; lia.
  - unfold dashboard.update. cbn [fst snd dashboard.time].
    repeat case_bool_decide; intros; (lia || lra).
  - unfold dashboard.update. cbn [fst snd dashboard.time].
    repeat case_bool_decide; intros; (lia || lra).
  - unfold dashboard.update. cbn [fst snd dashboard.time].
    repeat case_bool_decide; intros; (lia || lra).
  - unfold dashboard.update. cbn [fst snd dashboard.time].
    repeat case_bool_decide; intros; (lia || lra).
Qed.

Lemma update_step_witness :
  ((dashboard.update (dashboard.init 0) 12).1 <= 2)%nat /\
  ((dashboard.update (dashboard.init 0) 12).1 = 2%nat <->
   dashboard.mod10 (dashboard.time (dashboard.update (dashboard.init 0) 12).2) < 3) /\
  ((dashboard.update (dashboard.init 0) 12).1 = 0%nat <->
   7 <= dashboard.mod10 (dashboard.time (dashboard.update (dashboard.init 0) 12).2)) /\
  length (dashboard.fidelity_history (dashboard.update (dashboard.init 0) 12).2) =
    (S (length (dashboard.fidelity_history (dashboard.init 0))) `min` 100)%nat /\
  dashboard.fidelity_history (dashboard.update (dashboard.init 0) 12).2 `suffix_of`
    dashboard.fidelity_history (dashboard.init 0) ++ [(dashboard.update (dashboard.init 0) 12).1] /\
  last (dashboard.fidelity_history (dashboard.update (dashboard.init 0) 12).2) =
    Some (dashboard.update (dashboard.init 0) 12).1 /\
  dashboard.last_update (dashboard.update (dashboard.init 0) 12).2 = 12 /\
  dashboard.time (dashboard.update (dashboard.init 0) 12).2 =
    dashboard.time (dashboard.init 0) + (12 - dashboard.last_update (dashboard.init 0)).
Proof.
  apply (update_step (dashboard.init 0) 12).
  simpl. lia.
Defined.

Lemma updates_snoc (self : dashboard.SimulationState) (readings : list R) (t : R) :
  dashboard.updates self (readings ++ [t]) =
  (dashboard.update (dashboard.updates self readings) t).2.
Proof. unfold dashboard.updates. by rewrite foldl_app. Qed.

(** X15.  After any sequence of updates of a fresh [SimulationState] the
    history holds [min(number of updates, 100)] entries, each 0, 1 or 2;
    [time] is the time elapsed between the construction and the last
    update, and [last_update] is the last clock reading. *)
Theorem updates_keep_bounded_history (now : R) (readings : list R) :
  length (dashboard.fidelity_history (dashboard.updates (dashboard.init now) readings)) =
    (length readings `min` 100)%nat /\
  Forall (fun f => (f <= 2)%nat)
    (dashboard.fidelity_history (dashboard.updates (dashboard.init now) readings)) /\
  dashboard.time (dashboard.updates (dashboard.init now) readings) =
    dashboard.last_update (dashboard.updates (dashboard.init now) readings) - now /\
  dashboard.last_update (dashboard.updates (dashboard.init now) readings) =
    default now (last readings).
Proof.
  induction readings as [|t readings IH] using rev_ind.
  - cbn. repeat split; [constructor|lra].
  - destruct IH as (Hlen & Hall & Htime & Hlast).
    rewrite updates_snoc, last_snoc, length_app. cbn [length default].
    set (st := dashboard.updates (dashboard.init now) readings) in *.
    assert (length (dashboard.fidelity_history st) <= 100)%nat as Hle by lia.
    destruct (update_history st t Hle) as (H1 & H2 & H3).
    split; [rewrite H1, Hlen; lia|]. split; [|split].
    + destruct H2 as [pre Hpre].
      assert (Forall (fun f => (f <= 2)%nat)
                (dashboard.fidelity_history st ++ [(dashboard.update st t).1])) as Hf.
      { apply Forall_app. split; [exact Hall|]. constructor; [|constructor].
        unfold dashboard.update. cbn [fst]. repeat case_bool_decide; lia. }
      rewrite Hpre in Hf. apply Forall_app in Hf as [_ Hf]. exact Hf.
    + unfold dashboard.update. cbn [snd dashboard.time dashboard.last_update]. lra.
    + reflexivity.
Qed.

(** X17.  The route checks no range for the absorptivity.  A request that
    passes the four checks with a negative absorptivity is answered with
    the result of a run, and every cell of its [power_field] is negative,
    above [0.30 * solar_irradiance * absorptivity * 0.01]. *)
Theorem route_accepts_negative_absorptivity (data : Request) (w : World) :
  validated (request_parameters data) ->
  absorptivity (request_parameters data) < 0 ->
  exists r,
    (api_simulate data w).1 = Success r (request_parameters data) /\
    shape 25 25 (power_field r) /\
    all_cells
      (fun v => 0.30 * solar_irradiance (request_parameters data) *
                absorptivity (request_parameters data) * 0.01 < v /\ v < 0)
      (power_field r).
Proof.
  intros Hv Ha.
  destruct (api_simulate_power_cells data w Hv) as (r & Hapi & Hshape & Hgen).
  exists r. split; [exact Hapi|]. split; [exact Hshape|].
  eapply all_cells_impl; [|exact Hgen].
  intros v (eta & e & Heta & He & ->).
  destruct Hv as ((Hi & _) & _).
  unfold base_absorption, cell_area.
  replace (0.30 * solar_irradiance (request_parameters data) *
           absorptivity (request_parameters data) * 0.01)
    with (0.30 * (solar_irradiance (request_parameters data) *
                  absorptivity (request_parameters data) * 0.01)) by ring.
  assert (solar_irradiance (request_parameters data) *
          absorptivity (request_parameters data) * 0.01 < 0) as HQ by nra.
  generalize dependent (solar_irradiance (request_parameters data) *
                        absorptivity (request_parameters data) * 0.01).
  intros Q HQ.
  assert (0 < eta * e) by (apply Rmult_lt_0_compat; lra).
  assert (eta * e < 0.30).
  { apply Rlt_le_trans with (eta * 1); [apply Rmult_lt_compat_l; lra|lra]. }
  split; nra.
Qed.

Lemma route_accepts_negative_absorptivity_witness :
  exists r,
    (api_simulate (with_absorptivity (-1) empty_request) idle_world).1 =
      Success r (request_parameters (with_absorptivity (-1) empty_request)) /\
    shape 25 25 (power_field r) /\
    all_cells
      (fun v => 0.30 * solar_irradiance
                         (request_parameters (with_absorptivity (-1) empty_request)) *
                absorptivity (request_parameters (with_absorptivity (-1) empty_request)) *
                0.01 < v /\ v < 0)
      (power_field r).
Proof.
  apply (route_accepts_negative_absorptivity
           (with_absorptivity (-1) empty_request) idle_world).
  - unfold validated. simpl. lra.
  - simpl. lra.
Defined.
